(** * Dvk-Archive: the record index (DvkHandler) and the duplicate-ID finder

    A shallow embedding of [drak_archive/file/dvk_handler.py] and
    [dvk_archive/error/same_ids.py].

    - Python ints that callers may pass (indexes) are [Z]; loop counters
      drawn from [range(0, size)] and the entries of [self.sorted], which
      only ever come from such a range, are [nat].
    - A raised exception is the [Raise] branch of [result].
    - A [DvkHandler] object lives in a store ([gmap loc DvkHandler]); a
      method is a function on the object's state, and [same_ids] works on
      the store, so that the handler it is given is the caller's handler.
    - The modules the two files import but which are not part of the
      sources at hand ([string_compare], [list_processing], [dvk],
      [dvk_directory]) and the state of the file system ([os.walk],
      [os.listdir]) are interfaces (type classes); every theorem is proved
      for an arbitrary implementation of them.
    - What Python itself fixes is defined: list indexing, [sorted],
      [cmp_to_key], [str.endswith], the order of [str] and of [pathlib]
      paths. *)

From stdpp Require Import base gmap.
From Stdlib Require Import ZArith List String Ascii Bool Lia Permutation Sorted.
From Stdlib Require Import DecimalString.
Import ListNotations.

Local Open Scope string_scope.
Local Open Scope list_scope.

(* ===================================================================== *)
(** * Part I: definitions *)
(* ===================================================================== *)

(** ** Python runtime *)

Inductive exn : Type :=
| IndexError
| ReferenceError.

Inductive result (A : Type) : Type :=
| Ok (a : A)
| Raise (e : exn).
Arguments Ok {A} a.
Arguments Raise {A} e.

Definition bind {A B : Type} (m : result A) (k : A -> result B) : result B :=
  match m with
  | Ok a => k a
  | Raise e => Raise e
  end.

(** [l[i]] for a Python list, negative indexes counting from the end. *)
Definition py_index {A : Type} (l : list A) (i : Z) : result A :=
  let n := Z.of_nat (List.length l) in
  let j := if (i <? 0)%Z then (i + n)%Z else i in
  if ((0 <=? j)%Z && (j <? n)%Z)%bool
  then match nth_error l (Z.to_nat j) with
       | Some x => Ok x
       | None => Raise IndexError
       end
  else Raise IndexError.

(** [for x in xs: out.append(f(x))], where [f] may raise. *)
Definition for_append {X Y : Type} (f : X -> result Y) (xs : list X)
  : result (list Y) :=
  fold_left (fun acc x =>
               bind acc (fun out => bind (f x) (fun y => Ok (out ++ [y]))))
            xs (Ok []).

(** [x in l] for a list of ints. *)
Definition py_in (x : nat) (l : list nat) : bool := existsb (Nat.eqb x) l.

(** [s.endswith(suffix)]. *)
Definition endswith (s suffix : string) : bool :=
  let n := String.length s in
  let m := String.length suffix in
  if (m <=? n)%nat then String.eqb (substring (n - m) m s) suffix else false.

(** [functools.cmp_to_key]: the key object's [<] is [mycmp(a, b) < 0], the
    only comparison [sorted] uses. *)
Definition cmp_to_key {A : Type} (mycmp : A -> A -> Z) (a b : A) : bool :=
  (mycmp a b <? 0)%Z.

(** One step of [sorted]: the pivot goes in front of the first element it is
    less than, hence after every element it is not less than. *)
Fixpoint insort {A : Type} (lt : A -> A -> bool) (pivot : A) (l : list A)
  : list A :=
  match l with
  | [] => [pivot]
  | y :: l' => if lt pivot y then pivot :: y :: l' else y :: insort lt pivot l'
  end.

(** The built-in [sorted], a stable sort that asks only [<] of the keys:
    elements are taken left to right and inserted into the sorted prefix
    (CPython's sort on short lists is a binary insertion sort; every stable
    sort gives the same list when [<] is a strict weak order). *)
Definition py_sorted {A : Type} (lt : A -> A -> bool) (l : list A) : list A :=
  fold_left (fun acc x => insort lt x acc) l [].

(** Three-way comparison of ints: -1, 0 or 1. *)
Definition three_way (x y : Z) : Z :=
  if (x <? y)%Z then (-1)%Z else if (y <? x)%Z then 1%Z else 0%Z.

(** Python's ordering of sequences, three-way: the first position where the
    elements differ decides, and a strict prefix is less. *)
Fixpoint lex_cmp {A : Type} (cmp : A -> A -> Z) (l1 l2 : list A) : Z :=
  match l1, l2 with
  | [], [] => 0
  | [], _ :: _ => -1
  | _ :: _, [] => 1
  | x :: l1', y :: l2' =>
      if (cmp x y =? 0)%Z then lex_cmp cmp l1' l2' else cmp x y
  end.

Definition char_cmp (a b : ascii) : Z :=
  three_way (Z.of_N (N_of_ascii a)) (Z.of_N (N_of_ascii b)).

(** [<], [==], [>] on [str]: by code point, lexicographic. *)
Definition str_cmp (a b : string) : Z :=
  lex_cmp char_cmp (list_ascii_of_string a) (list_ascii_of_string b).

(** ** Records *)

(** A [pathlib.Path], written as the string it normalises to. *)
Definition Path := string.

(** The runs between slashes; the head of the result is the run in
    progress. *)
Fixpoint slash_runs (l : list ascii) : list (list ascii) :=
  match l with
  | [] => [[]]
  | c :: rest =>
      if Ascii.eqb c "/" then [] :: slash_runs rest
      else match slash_runs rest with
           | run :: runs => (c :: run) :: runs
           | [] => [[c]]
           end
  end.

(** [PurePosixPath.parts]: the root, then the non-empty components. *)
Definition parts (p : Path) : list (list ascii) :=
  let l := list_ascii_of_string p in
  let root := match l with
              | c :: _ => if Ascii.eqb c "/" then [["/"%char]] else []
              | [] => []
              end in
  root ++ List.filter (fun run => negb (Nat.eqb (List.length run) 0))
                      (slash_runs l).

(** [<] on [Path] objects ([PurePath.__lt__]): the lists of parts are
    compared, not the path strings. *)
Definition path_lt (p q : Path) : bool :=
  (lex_cmp (lex_cmp char_cmp) (parts p) (parts q) <? 0)%Z.

(** The accessors of a [Dvk] object that the index and the finder read. *)
Record Dvk : Type := mkDvk {
  get_id : string;
  get_title : string;
  get_artists : list string;
  get_rating : Z;
  get_views : Z;
  get_time : string;
  get_file : Path
}.

(** ** Interfaces of the imported modules *)

(** [drak_archive.processing.string_compare]. *)
Class StringCompare : Type := {
  compare_strings : string -> string -> Z;
  compare_alphanum : string -> string -> Z
}.

(** [drak_archive.processing.list_processing]. *)
Class ListProcessing : Type := {
  clean_list : list Path -> list Path;
  list_to_string : list string -> string
}.

(** [drak_archive.file.dvk] and [drak_archive.file.dvk_directory]:
    [Dvk()] and the [dvks] of a [DvkDirectory] after [read_dvks(path)]. *)
Class DvkFiles : Type := {
  Dvk_new : Dvk;
  read_dvks : Path -> list Dvk
}.

(** The file system as [os] and [pathlib] show it: [Path(d).absolute()],
    the directories [p[0]] that [walk] yields, the names [listdir] returns. *)
Class FileSystem : Type := {
  absolute : string -> Path;
  walk : Path -> list Path;
  listdir : Path -> list string
}.

(** ** DvkHandler *)

(** [group_artists] is [None] until [sort_dvks] sets the attribute. *)
Record DvkHandler : Type := mkHandler {
  dvks : list Dvk;
  sorted : list nat;
  paths : list Path;
  group_artists : option bool
}.

Definition set_dvks (self : DvkHandler) (v : list Dvk) : DvkHandler :=
  mkHandler v (sorted self) (paths self) (group_artists self).
Definition set_sorted (self : DvkHandler) (v : list nat) : DvkHandler :=
  mkHandler (dvks self) v (paths self) (group_artists self).
Definition set_paths (self : DvkHandler) (v : list Path) : DvkHandler :=
  mkHandler (dvks self) (sorted self) v (group_artists self).
Definition set_group_artists (self : DvkHandler) (v : bool) : DvkHandler :=
  mkHandler (dvks self) (sorted self) (paths self) (Some v).

(** [__init__]. *)
Definition DvkHandler_init : DvkHandler := mkHandler [] [] [] None.

Definition reset_sorted (self : DvkHandler) : DvkHandler :=
  let size := List.length (dvks self) in
  fold_left (fun h i => set_sorted h (sorted h ++ [i])) (seq 0 size)
            (set_sorted self []).

Definition get_size (self : DvkHandler) : nat := List.length (sorted self).

Definition get_dvk_direct `{DvkFiles} (self : DvkHandler) (index_int : Z)
  : result Dvk :=
  if ((-1 <? index_int)%Z && (index_int <? Z.of_nat (get_size self))%Z)%bool
  then py_index (dvks self) index_int
  else Ok Dvk_new.

Definition get_dvk_sorted `{DvkFiles} (self : DvkHandler) (index_int : Z)
  : result Dvk :=
  if ((-1 <? index_int)%Z && (index_int <? Z.of_nat (get_size self))%Z)%bool
  then bind (py_index (sorted self) index_int)
            (fun i => get_dvk_direct self (Z.of_nat i))
  else Ok Dvk_new.

(** The inner loops of [get_directories]: one walked directory, one root. *)
Definition scan_directory `{FileSystem} (paths : list Path) (dir : Path)
  : list Path :=
  if existsb (fun file => endswith file ".dvk") (listdir dir)
  then paths ++ [dir]
  else paths.

Definition scan_root `{FileSystem} (paths : list Path) (d : option string)
  : list Path :=
  match d with
  | Some s =>
      if negb (String.eqb s "")
      then fold_left scan_directory (walk (absolute s)) paths
      else paths
  | None => paths
  end.

Definition get_directories `{FileSystem} `{ListProcessing}
    (directory_strs : option (list (option string))) : list Path :=
  match directory_strs with
  | None => []
  | Some strs => py_sorted path_lt (clean_list (fold_left scan_root strs []))
  end.

Definition load_dvks `{FileSystem} `{ListProcessing} `{DvkFiles}
    (self : DvkHandler) (directory_strs : option (list (option string)))
  : DvkHandler :=
  let self := set_dvks self [] in
  let self := set_paths self (get_directories directory_strs) in
  let self := fold_left (fun h path => set_dvks h (dvks h ++ read_dvks path))
                        (paths self) self in
  reset_sorted self.

(** ** Comparators

    A comparator reads [self.group_artists], which [sort_dvks] has set by
    the time [sorted] calls it; it is the first argument here. *)

Definition compare_artists `{StringCompare} `{ListProcessing} (x y : Dvk) : Z :=
  let x_artists := list_to_string (get_artists x) in
  let y_artists := list_to_string (get_artists y) in
  compare_alphanum x_artists y_artists.

Definition compare_alpha `{StringCompare} `{ListProcessing}
    (group_artists : bool) (x y : option Dvk) : Z :=
  match x, y with
  | Some x, Some y =>
      let result := 0%Z in
      let result := if group_artists then compare_artists x y else result in
      let result := if (result =? 0)%Z
                    then compare_alphanum (get_title x) (get_title y)
                    else result in
      if (result =? 0)%Z
      then compare_strings (get_time x) (get_time y)
      else result
  | _, _ => 0%Z
  end.

Definition compare_time `{StringCompare} `{ListProcessing}
    (group_artists : bool) (x y : option Dvk) : Z :=
  match x, y with
  | Some x, Some y =>
      let result := 0%Z in
      let result := if group_artists then compare_artists x y else result in
      let result := if (result =? 0)%Z
                    then compare_strings (get_time x) (get_time y)
                    else result in
      if (result =? 0)%Z
      then compare_alphanum (get_title x) (get_title y)
      else result
  | _, _ => 0%Z
  end.

Definition compare_ratings `{StringCompare} `{ListProcessing}
    (group_artists : bool) (x y : option Dvk) : Z :=
  match x, y with
  | Some x', Some y' =>
      let result := 0%Z in
      let result := if group_artists then compare_artists x' y' else result in
      if (result =? 0)%Z
      then if (get_rating x' <? get_rating y')%Z then (-1)%Z
           else if (get_rating y' <? get_rating x')%Z then 1%Z
           else compare_alpha group_artists x y
      else result
  | _, _ => 0%Z
  end.

Definition compare_views `{StringCompare} `{ListProcessing}
    (group_artists : bool) (x y : option Dvk) : Z :=
  match x, y with
  | Some x', Some y' =>
      let result := 0%Z in
      let result := if group_artists then compare_artists x' y' else result in
      if (result =? 0)%Z
      then if (get_views x' <? get_views y')%Z then (-1)%Z
           else if (get_views y' <? get_views x')%Z then 1%Z
           else compare_alpha group_artists x y
      else result
  | _, _ => 0%Z
  end.

(** The bound method [sort_dvks] hands to [cmp_to_key]. *)
Definition select_comparator `{StringCompare} `{ListProcessing}
    (sort_type : string) : bool -> option Dvk -> option Dvk -> Z :=
  if String.eqb sort_type "t" then compare_time
  else if String.eqb sort_type "r" then compare_ratings
  else if String.eqb sort_type "v" then compare_views
  else compare_alpha.

(** The comparator as [sorted] applies it, to two records of the list. *)
Definition on_records (cmp : option Dvk -> option Dvk -> Z) (x y : Dvk) : Z :=
  cmp (Some x) (Some y).

Definition sort_dvks `{StringCompare} `{ListProcessing}
    (self : DvkHandler) (sort_type : option string) (group_artists_bool : bool)
  : DvkHandler :=
  let self := set_group_artists self group_artists_bool in
  match sort_type with
  | Some t =>
      if (0 <? get_size self)%nat
      then let comparator :=
             cmp_to_key (on_records (select_comparator t group_artists_bool)) in
           set_dvks self (py_sorted comparator (dvks self))
      else self
  | None => self
  end.

(** ** same_ids *)

Abbreviation loc := positive.
Abbreviation store := (gmap loc DvkHandler).

(** The body of the inner loop, [ids[i] == ids[k]] with [i] and [k] below
    [size = len(ids)]. *)
Definition mark_partner (ids : list string) (i : nat) (s_ids : list nat)
    (k : nat) : list nat :=
  if String.eqb (nth i ids "") (nth k ids "")
  then (if negb (py_in i s_ids) then s_ids ++ [i] else s_ids) ++ [k]
  else s_ids.

(** The body of the outer loop. *)
Definition mark_from (ids : list string) (size : nat) (s_ids : list nat)
    (i : nat) : list nat :=
  if negb (py_in i s_ids)
  then fold_left (mark_partner ids i) (seq (i + 1) (size - (i + 1))) s_ids
  else s_ids.

(** [# FIND IDENTICAL IDS]. *)
Definition find_identical (ids : list string) (size : nat) : list nat :=
  fold_left (mark_from ids size) (seq 0 size) [].

(** [handler = dvk_handler] binds the caller's object; otherwise a new
    object is allocated and loaded. *)
Definition bind_handler `{FileSystem} `{ListProcessing} `{DvkFiles}
    (dvk_directories : option (list (option string)))
    (dvk_handler : option loc) (st : store) : loc * store :=
  match dvk_handler with
  | Some handler => (handler, st)
  | None =>
      let handler := fresh (dom st) in
      (handler, <[handler := load_dvks DvkHandler_init dvk_directories]> st)
  end.

Definition same_ids `{StringCompare} `{FileSystem} `{ListProcessing} `{DvkFiles}
    (dvk_directories : option (list (option string)))
    (dvk_handler : option loc) (st : store) : result (list Path * store) :=
  let '(handler, st) := bind_handler dvk_directories dvk_handler st in
  match st !! handler with
  | None => Raise ReferenceError
  | Some self =>
      let self := sort_dvks self (Some "a") true in
      let st := <[handler := self]> st in
      let size := get_size self in
      bind (for_append
              (fun i => bind (get_dvk_sorted self (Z.of_nat i))
                             (fun d => Ok (get_id d)))
              (seq 0 size))
        (fun ids =>
           let s_ids := find_identical ids size in
           bind (for_append
                   (fun id => bind (get_dvk_sorted self (Z.of_nat id))
                                   (fun d => Ok (get_file d)))
                   s_ids)
             (fun identicals => Ok (identicals, st)))
  end.

(** ** rename_files

    [reformat/rename_files.py].  [Dvk.rename_files()] belongs to the absent
    module [dvk]; what is kept of it is on which records, and in which
    order, it is called. *)
Definition rename_files `{FileSystem} `{ListProcessing} `{DvkFiles}
    (directory_str : option string) : result (list Dvk) :=
  let dvk_handler := load_dvks DvkHandler_init (Some [directory_str]) in
  let size := get_size dvk_handler in
  for_append (fun i => get_dvk_direct dvk_handler (Z.of_nat i)) (seq 0 size).

(** ** Specification vocabulary *)

(** A comparator that answers like a total preorder: swapping the arguments
    swaps the sign, and "not after" is transitive. *)
Definition consistent {A : Type} (cmp : A -> A -> Z) : Prop :=
  (forall x y, (cmp x y < 0 <-> 0 < cmp y x)%Z) /\
  (forall x y z, (cmp x y <= 0 -> cmp y z <= 0 -> cmp x z <= 0)%Z).

(** The same for a [<] given as a boolean test. *)
Definition strict_weak {A : Type} (lt : A -> A -> bool) : Prop :=
  (forall x y, lt x y = true -> lt y x = false) /\
  (forall x y z, lt y x = false -> lt z y = false -> lt z x = false).

(** First [c1]; [c2] decides where [c1] reports a tie. *)
Definition lex2 {A : Type} (c1 c2 : A -> A -> Z) (x y : A) : Z :=
  if (c1 x y =? 0)%Z then c2 x y else c1 x y.

(** The links of the tie-break chains. *)
Definition by_artists `{StringCompare} `{ListProcessing} (group_artists : bool)
    (x y : Dvk) : Z :=
  if group_artists then compare_artists x y else 0%Z.

Definition by_title `{StringCompare} (x y : Dvk) : Z :=
  compare_alphanum (get_title x) (get_title y).

Definition by_time `{StringCompare} (x y : Dvk) : Z :=
  compare_strings (get_time x) (get_time y).

Definition by_rating (x y : Dvk) : Z := three_way (get_rating x) (get_rating y).

Definition by_views (x y : Dvk) : Z := three_way (get_views x) (get_views y).

(** The list is in ascending order under the comparator. *)
Definition sorted_by {A : Type} (cmp : A -> A -> Z) (l : list A) : Prop :=
  StronglySorted (fun x y => (cmp x y <= 0)%Z) l.

(** The comparator the specification attaches to a mode: time, rating and
    views for ["t"], ["r"] and ["v"], alphabetic for every other value and
    for an absent one. *)
Definition specified_comparator `{StringCompare} `{ListProcessing}
    (mode : option string) : bool -> option Dvk -> option Dvk -> Z :=
  match mode with
  | Some "t" => compare_time
  | Some "r" => compare_ratings
  | Some "v" => compare_views
  | _ => compare_alpha
  end.

(** The directory lists a name that ends with the record-file suffix. *)
Definition holds_dvk_file `{FileSystem} (dir : Path) : Prop :=
  exists file, In file (listdir dir) /\ endswith file ".dvk" = true.

(** The directory is reached by the walk from an entry of the input that is
    neither [None] nor the empty string. *)
Definition walked_from `{FileSystem} (strs : list (option string)) (dir : Path)
  : Prop :=
  exists s, In (Some s) strs /\ s <> "" /\ In dir (walk (absolute s)).

Definition usable_root (d : option string) : bool :=
  match d with
  | Some s => negb (String.eqb s "")
  | None => false
  end.

(** What the specification asks of [clean_list]: the result has no
    duplicates and the same entries as the argument. *)
Definition removes_duplicates (clean : list Path -> list Path) : Prop :=
  forall l, NoDup (clean l) /\ forall p, In p (clean l) <-> In p l.

(** The lexical order of path strings. *)
Definition lexical_lt (p q : Path) : bool := (str_cmp p q <? 0)%Z.

(** Ascending under a boolean [<]: no element is less than an earlier one. *)
Definition ascending {A : Type} (lt : A -> A -> bool) (l : list A) : Prop :=
  StronglySorted (fun x y => lt y x = false) l.

(** The index invariant: [sorted] is as long as [dvks] and holds a
    permutation of the positions [0 .. n-1]. *)
Definition index_inv (h : DvkHandler) : Prop :=
  List.length (sorted h) = List.length (dvks h) /\
  Permutation (sorted h) (seq 0 (List.length (dvks h))).

(** The records as the sorted index presents them: [dvks[sorted[i]]] for
    [i = 0 .. get_size()-1]. *)
Definition sorted_view `{DvkFiles} (h : DvkHandler) : list Dvk :=
  map (fun j => nth j (dvks h) Dvk_new) (sorted h).

(** The handlers a caller of the public operations can hold. *)
Inductive reachable `{StringCompare} `{FileSystem} `{ListProcessing} `{DvkFiles}
  : DvkHandler -> Prop :=
| reach_init : reachable DvkHandler_init
| reach_load h roots : reachable h -> reachable (load_dvks h roots)
| reach_reset h : reachable h -> reachable (reset_sorted h)
| reach_sort h mode group : reachable h -> reachable (sort_dvks h mode group).

(** The handler [same_ids] works on: the caller's, or a new one loaded from
    the directories. *)
Definition handler_given `{FileSystem} `{ListProcessing} `{DvkFiles}
    (dvk_directories : option (list (option string)))
    (dvk_handler : option loc) (st : store) (h : DvkHandler) : Prop :=
  match dvk_handler with
  | Some l => st !! l = Some h
  | None => h = load_dvks DvkHandler_init dvk_directories
  end.

(** Duplicate clusters, as the specification words them.  [partners ids i]
    are the later positions with the id of position [i], ascending;
    position [i] opens a cluster when no earlier position has its id and it
    has a partner; the clusters follow each other by first member. *)
Definition same_id (ids : list string) (i k : nat) : bool :=
  String.eqb (nth i ids "") (nth k ids "").

Definition partners (ids : list string) (i : nat) : list nat :=
  List.filter (same_id ids i) (seq (i + 1) (List.length ids - (i + 1))).

Definition first_occurrence (ids : list string) (i : nat) : bool :=
  forallb (fun q => negb (same_id ids q i)) (seq 0 i).

Definition cluster (ids : list string) (i : nat) : list nat :=
  if first_occurrence ids i
  then match partners ids i with
       | [] => []
       | k :: ks => i :: k :: ks
       end
  else [].

Definition cluster_order (ids : list string) : list nat :=
  flat_map (cluster ids) (seq 0 (List.length ids)).

(** Position [p] collides: another position carries the same id. *)
Definition collides (ids : list string) (p : nat) : Prop :=
  p < List.length ids /\
  exists q, q < List.length ids /\ q <> p /\ nth q ids "" = nth p ids "".

(** The file paths of the records at the given positions. *)
Definition paths_at `{DvkFiles} (records : list Dvk) (positions : list nat)
  : list Path :=
  map (fun p => get_file (nth p records Dvk_new)) positions.

(** ** A reference implementation of the interfaces

    The imported modules are outside the sources at hand; the definitions
    below follow the words of the specification and serve as the concrete
    instance on which the theorems are exercised. *)

Module Model.

(** Modelled from the spec: [compare_strings] of the absent module
    [string_compare], "compare ... strings lexically". *)
Definition lexical_compare (a b : string) : Z := str_cmp a b.

Definition is_digit (c : ascii) : bool :=
  let n := N_of_ascii c in ((48 <=? n)%N && (n <=? 57)%N)%bool.

Definition lower (c : ascii) : ascii :=
  let n := N_of_ascii c in
  if ((65 <=? n)%N && (n <=? 90)%N)%bool then ascii_of_N (n + 32) else c.

(** A maximal run of digits or of other characters. *)
Inductive chunk : Type :=
| Digits (run : list ascii)
| Text (run : list ascii).

Fixpoint chunks (l : list ascii) : list chunk :=
  match l with
  | [] => []
  | c :: rest =>
      match chunks rest with
      | Digits run :: cs =>
          if is_digit c then Digits (c :: run) :: cs
          else Text [c] :: Digits run :: cs
      | Text run :: cs =>
          if is_digit c then Digits [c] :: Text run :: cs
          else Text (c :: run) :: cs
      | [] => [if is_digit c then Digits [c] else Text [c]]
      end
  end.

(** The number a digit run denotes; leading zeros do not count. *)
Definition run_value (run : list ascii) : Z :=
  fold_left (fun v c => (10 * v + (Z.of_N (N_of_ascii c) - 48))%Z) run 0%Z.

(** Digit runs by value, other runs case-insensitively; where the
    specification is silent (a digit run against another run) the digit
    run is taken to come first. *)
Definition chunk_cmp (a b : chunk) : Z :=
  match a, b with
  | Digits x, Digits y => three_way (run_value x) (run_value y)
  | Text x, Text y => lex_cmp char_cmp (map lower x) (map lower y)
  | Digits _, Text _ => -1
  | Text _, Digits _ => 1
  end.

(** Modelled from the spec: [compare_alphanum] of the absent module
    [string_compare], "split each string into alternating runs of digits
    and non-digits; compare run-by-run, digit runs numerically, non-digit
    runs case-insensitively lexically; shorter string is less if it is a
    strict prefix run-wise". *)
Definition natural_compare (a b : string) : Z :=
  lex_cmp chunk_cmp (chunks (list_ascii_of_string a))
                    (chunks (list_ascii_of_string b)).

(** Modelled from the spec: [list_to_string] of the absent module
    [list_processing], the artist list "joined into a single string". *)
Definition join (l : list string) : string := String.concat "," l.

(** Modelled from the spec: [clean_list] of the absent module
    [list_processing], which leaves the list "deduplicated"; the first
    occurrence of each entry is kept. *)
Definition dedup (l : list Path) : list Path :=
  fold_left (fun out p => if existsb (String.eqb p) out then out else out ++ [p])
            l [].

Definition string_compare : StringCompare :=
  {| compare_strings := lexical_compare;
     compare_alphanum := natural_compare |}.

Definition list_processing : ListProcessing :=
  {| clean_list := dedup;
     list_to_string := join |}.

(** The directory tree and the four records that [tests/error/test_same_ids.py]
    sets up under [finding]. *)
Definition unknown_time : string := "0000/00/00|00:00".

Definition dvk1 : Dvk :=
  mkDvk "id1" "title1" ["artist"] 0 0 unknown_time "/finding/dvk1.dvk".
Definition dvk2 : Dvk :=
  mkDvk "id2" "title2" ["artist"] 0 0 unknown_time "/finding/sub/dvk2.dvk".
Definition dvk3 : Dvk :=
  mkDvk "id1" "title3" ["artist"] 0 0 unknown_time "/finding/sub/dvk3.dvk".
Definition dvk4 : Dvk :=
  mkDvk "id1" "title4" ["artist"] 0 0 unknown_time "/finding/dvk4.dvk".

(** Modelled from the spec: [Dvk()] of the absent module [dvk], the
    "sentinel empty record" with the time of an unknown publication. *)
Definition empty_dvk : Dvk := mkDvk "" "" [] 0 0 unknown_time "".

Definition dvk_files : DvkFiles :=
  {| Dvk_new := empty_dvk;
     read_dvks := fun path =>
       if String.eqb path "/finding" then [dvk1; dvk4]
       else if String.eqb path "/finding/sub" then [dvk2; dvk3]
       else [] |}.

Definition file_system : FileSystem :=
  {| absolute := fun s =>
       match s with
       | String "/" _ => s
       | _ => String.append "/" s
       end;
     walk := fun top =>
       if String.eqb top "/finding"
       then ["/finding"; "/finding/sub"; "/finding/sub2"]
       else if String.eqb top "/finding/sub" then ["/finding/sub"]
       else if String.eqb top "/finding/sub2" then ["/finding/sub2"]
       else [];
     listdir := fun dir =>
       if String.eqb dir "/finding"
       then ["file0"; "sub"; "sub2"; "dvk1.dvk"; "file1.txt";
             "fileSecond.no"; "dvk4.dvk"]
       else if String.eqb dir "/finding/sub"
       then ["file2.png"; "dvk2.dvk"; "file1.txt"; "dvk3.dvk"]
       else if String.eqb dir "/finding/sub2" then ["noDVK.txt"]
       else [] |}.

(** The handler of the test after [load_dvks([test_dir])]. *)
Definition loaded : DvkHandler :=
  @load_dvks file_system list_processing dvk_files DvkHandler_init
             (Some [Some "finding"]).

(** A store in which the caller holds that handler. *)
Definition caller : loc := 1%positive.
Definition one_store : store := {[ caller := loaded ]}.

(** Two records by different artists whose titles order the other way. *)
Definition zed : Dvk := mkDvk "idZ" "A" ["Zed"] 0 0 unknown_time "/art/zed.dvk".
Definition amy : Dvk := mkDvk "idA" "B" ["Amy"] 0 0 unknown_time "/art/amy.dvk".

(** A tree with a directory [a], its sub-directory [x], and a sibling
    [a-b], each of the last two holding one record file. *)
Definition hyphen_tree : FileSystem :=
  {| absolute := fun s => s;
     walk := fun top =>
       if String.eqb top "/r" then ["/r"; "/r/a"; "/r/a/x"; "/r/a-b"] else [];
     listdir := fun dir =>
       if String.eqb dir "/r" then ["a"; "a-b"]
       else if String.eqb dir "/r/a" then ["x"]
       else if String.eqb dir "/r/a/x" then ["one.dvk"]
       else if String.eqb dir "/r/a-b" then ["two.dvk"]
       else [] |}.

End Model.

(** ** dvk_html

    [dvk_archive/main/file/dvk_html.py], the functions that build the page
    of a record.  Its [Dvk] is the class of [dvk_archive.main.file.dvk]; the
    helpers of [html_processing], [string_processing] and [list_processing]
    are not among the sources and are interfaces. *)

Module Html.

Inductive exception : Type :=
| ValueError
| IndexError.

Inductive outcome (A : Type) : Type :=
| Return (a : A)
| Throw (e : exception).
Arguments Return {A} a.
Arguments Throw {A} e.

Definition newline : string := String (ascii_of_nat 10) "".

(** [s[a:b]] for [0 <= a <= b]. *)
Definition slice (s : string) (a b : nat) : string := substring a (b - a) s.

(** [str(n)] for an int. *)
Definition str_of_int (n : Z) : string := NilZero.string_of_int (Z.to_int n).

(** The accessors of a [Dvk] the page reads; [None] is Python's [None]. *)
Record Dvk : Type := mkDvk {
  get_title : option string;
  get_artists : list string;
  get_time : string;
  get_media_file : option string;
  get_description : option string;
  get_web_tags : list string;
  get_page_url : option string;
  get_direct_url : option string;
  get_secondary_url : option string
}.

(** The built-in [int] applied to a [str]: [None] stands for [ValueError]. *)
Class Builtins : Type := {
  int : string -> option Z
}.

(** [html_processing]: [create_html_tag(tag, attributes, text, pad_text)],
    an argument left out being [None]. *)
Class HtmlProcessing : Type := {
  add_escapes : string -> string;
  create_html_tag :
    string -> option (list (list string)) -> option string -> option bool
    -> string
}.

(** [string_processing]. *)
Class StringProcessing : Type := {
  get_extension : string -> string;
  pad_num : string -> Z -> string
}.

(** [list_processing], as this module calls it. *)
Class PageLists : Type := {
  clean_list : list string -> list string;
  list_to_string : list string -> bool -> Z -> string
}.

Definition list_to_lines (lst : option (list string)) : string :=
  match lst with
  | None => ""
  | Some lst =>
      fold_left
        (fun lines i =>
           let lines := if (0 <? i)%nat then (lines ++ newline)%string
                        else lines in
           (lines ++ nth i lst "")%string)
        (seq 0 (List.length lst)) ""
  end.

Definition months : list string :=
  ["Jan"; "Feb"; "Mar"; "Apr"; "May"; "Jun";
   "Jul"; "Aug"; "Sep"; "Oct"; "Nov"; "Dec"].

Definition get_time_string `{Builtins} `{StringProcessing}
    (dvk : option Dvk) (twelve_hour : bool) : outcome string :=
  match dvk with
  | None => Return "Unknown Publication Date"
  | Some dvk =>
      if String.eqb (get_time dvk) "0000/00/00|00:00"
      then Return "Unknown Publication Date"
      else
        let time := get_time dvk in
        let year := slice time 0 4 in
        match int (slice time 5 7) with
        | None => Throw ValueError
        | Some month_int =>
            match py_index months (month_int - 1) with
            | Raise _ => Throw IndexError
            | Ok month =>
                let day := slice time 8 10 in
                match int (slice time 11 13) with
                | None => Throw ValueError
                | Some hour_int =>
                    let minute := slice time 14 16 in
                    let clock_string := (":" ++ minute)%string in
                    let '(clock_string, hour_int) :=
                      if twelve_hour
                      then if (hour_int <? 12)%Z
                           then ((clock_string ++ " AM")%string,
                                 if (hour_int =? 0)%Z then 12%Z else hour_int)
                           else ((clock_string ++ " PM")%string,
                                 if negb (hour_int =? 12)%Z
                                 then (hour_int - 12)%Z else hour_int)
                      else (clock_string, hour_int) in
                    let clock_string :=
                      (pad_num (str_of_int hour_int) 2 ++ clock_string)%string
                    in
                    Return ("Posted <b>" ++ day ++ " " ++ month ++ " " ++ year
                              ++ " - " ++ clock_string ++ "</b>")%string
                end
            end
        end
  end.

Definition is_image_extension (extension : option string) : bool :=
  match extension with
  | None => false
  | Some e =>
      String.eqb e ".jpg" || String.eqb e ".jpeg" || String.eqb e ".png"
      || String.eqb e ".gif" || String.eqb e ".svg" || String.eqb e ".webp"
      || String.eqb e ".apng" || String.eqb e ".avif" || String.eqb e ".jfif"
      || String.eqb e ".pjpeg" || String.eqb e ".pjp"
  end.

Definition get_media_html `{HtmlProcessing} `{StringProcessing}
    (dvk : option Dvk) : string :=
  match dvk with
  | None => ""
  | Some dvk =>
      match get_title dvk, get_media_file dvk with
      | Some title, Some file =>
          let media_tag := "" in
          let media_file := ("file://" ++ file)%string in
          let extension := get_extension media_file in
          if is_image_extension (Some extension)
          then let attr := [["id"; "dvk_image"];
                            ["src"; media_file];
                            ["alt"; add_escapes title]] in
               create_html_tag "img" (Some attr) None None
          else media_tag
      | _, _ => ""
      end
  end.

(** [get_time_string(dvk)] inside a [+] of strings: what it raises, the
    caller raises. *)
Definition get_dvk_header_html `{Builtins} `{HtmlProcessing}
    `{StringProcessing} `{PageLists} (dvk : option Dvk) : outcome string :=
  match dvk with
  | None => Return ""
  | Some d =>
      match get_title d with
      | None => Return ""
      | Some title =>
          if Nat.eqb (List.length (get_artists d)) 0 then Return ""
          else
            let title_tag := ("<b>" ++ add_escapes title ++ "</b>")%string in
            let title_tag :=
              create_html_tag "div" (Some [["id"; "dvk_title"]])
                              (Some title_tag) (Some false) in
            match get_time_string dvk true with
            | Throw e => Throw e
            | Return time_string =>
                let pub_tag :=
                  ("By <b>" ++ list_to_string (get_artists d) true 1
                     ++ "</b>, " ++ time_string)%string in
                let pub_tag :=
                  create_html_tag "div" (Some [["id"; "dvk_pub"]])
                                  (Some pub_tag) (Some false) in
                let attr := [["id"; "dvk_header"]; ["class"; "dvk_padded"]] in
                Return (create_html_tag "div" (Some attr)
                          (Some (title_tag ++ newline ++ pub_tag)%string) None)
            end
      end
  end.

Definition get_dvk_info_html `{Builtins} `{HtmlProcessing}
    `{StringProcessing} `{PageLists} (dvk : option Dvk) : outcome string :=
  match get_dvk_header_html dvk with
  | Throw e => Throw e
  | Return header_tag =>
      if String.eqb header_tag "" then Return ""
      else
        match dvk with
        | None => Return ""
        | Some d =>
            let attr :=
              [["id"; "dvk_description"]; ["class"; "dvk_padded"]] in
            let desc_tag :=
              match get_description d with
              | None =>
                  create_html_tag "div" (Some attr)
                                  (Some "<i>No Description</i>") None
              | Some description =>
                  create_html_tag "div" (Some attr) (Some description) None
              end in
            let attr := [["id"; "dvk_info_base"]; ["class"; "dvk_info"]] in
            Return (create_html_tag "div" (Some attr)
                      (Some (header_tag ++ newline ++ desc_tag)%string) None)
        end
  end.

Definition get_tag_info_html `{HtmlProcessing} (dvk : option Dvk) : string :=
  match dvk with
  | None => ""
  | Some d =>
      if Nat.eqb (List.length (get_web_tags d)) 0 then ""
      else
        let attr :=
          [["id"; "dvk_web_tag_header"]; ["class"; "dvk_padded"]] in
        let wt_header :=
          create_html_tag "b" None (Some "Web Tags") (Some false) in
        let wt_header :=
          create_html_tag "div" (Some attr) (Some wt_header) (Some false) in
        let attr := [["class"; "dvk_tag"]] in
        let wt_elements :=
          fold_left
            (fun elements tag =>
               elements ++ [create_html_tag "span" (Some attr)
                                            (Some (add_escapes tag))
                                            (Some false)])
            (get_web_tags d) [] in
        let attr := [["id"; "dvk_tags"]; ["class"; "dvk_padded"]] in
        let wt_container :=
          create_html_tag "div" (Some attr)
                          (Some (list_to_lines (Some wt_elements))) None in
        let attr := [["id"; "dvk_tag_info"]; ["class"; "dvk_info"]] in
        create_html_tag "div" (Some attr)
                        (Some (wt_header ++ newline ++ wt_container)%string)
                        None
  end.

Definition get_page_link_html `{HtmlProcessing} (dvk : option Dvk) : string :=
  let links : list string := [] in
  let cls := ["class"; "dvk_link"] in
  match dvk with
  | None => ""
  | Some d =>
      let links :=
        match get_page_url d with
        | Some page =>
            links ++ [create_html_tag "a" (Some [cls; ["href"; page]])
                                      (Some "Page URL") (Some false)]
        | None => links
        end in
      let links :=
        match get_direct_url d with
        | Some direct =>
            links ++ [create_html_tag "a" (Some [cls; ["href"; direct]])
                                      (Some "Direct URL") (Some false)]
        | None => links
        end in
      let links :=
        match get_secondary_url d with
        | Some secondary =>
            links ++ [create_html_tag "a" (Some [cls; ["href"; secondary]])
                                      (Some "Secondary URL") (Some false)]
        | None => links
        end in
      let grid (name : string) :=
        create_html_tag "div"
          (Some [["id"; "dvk_page_links"]; ["class"; name]])
          (Some (list_to_lines (Some links))) None in
      if Nat.eqb (List.length links) 3 then grid "dvk_three_grid"
      else if Nat.eqb (List.length links) 2 then grid "dvk_two_grid"
      else if Nat.eqb (List.length links) 1 then grid "dvk_one_grid"
      else ""
  end.

Definition get_dvk_html `{Builtins} `{HtmlProcessing} `{StringProcessing}
    `{PageLists} (dvk : option Dvk) : outcome string :=
  match dvk with
  | None => Return ""
  | Some d =>
      match get_title d with
      | None => Return ""
      | Some title_text =>
          let title :=
            create_html_tag "title" None (Some (add_escapes title_text))
                            (Some false) in
          let charset :=
            create_html_tag "meta" (Some [["charset"; "UTF-8"]]) None None in
          let head :=
            create_html_tag "head" None
                            (Some (list_to_lines (Some [title; charset])))
                            None in
          let media := get_media_html dvk in
          match get_dvk_info_html dvk with
          | Throw e => Throw e
          | Return dvk_info =>
              let tag_info := get_tag_info_html dvk in
              let page_links := get_page_link_html dvk in
              let content :=
                list_to_lines
                  (Some (clean_list [media; dvk_info; tag_info; page_links]))
              in
              let dvk_content :=
                create_html_tag "div" (Some [["id"; "dvk_content"]])
                                (Some content) None in
              let html :=
                (head ++ newline
                   ++ create_html_tag "body" None (Some dvk_content) None)%string
              in
              let html :=
                ("<!DOCTYPE html>" ++ newline
                   ++ create_html_tag "html" None (Some html) None)%string in
              Return html
          end
      end
  end.

End Html.

(** ** Sample implementations for the page builder

    Stand-ins for the helpers that [dvk_html.py] imports, on which the
    theorems about the page are exercised. *)

Module PageSample.

Definition is_space (c : ascii) : bool :=
  let n := nat_of_ascii c in
  ((9 <=? n)%nat && (n <=? 13)%nat) || ((28 <=? n)%nat && (n <=? 32)%nat)
  || Nat.eqb n 133 || Nat.eqb n 160.

Definition is_digit (c : ascii) : bool :=
  let n := nat_of_ascii c in ((48 <=? n)%nat && (n <=? 57)%nat)%bool.

Fixpoint lstrip (l : list ascii) : list ascii :=
  match l with
  | c :: rest => if is_space c then lstrip rest else l
  | [] => []
  end.

(** Decimal digits, a single underscore allowed between two of them. *)
Fixpoint digits (l : list ascii) (acc : Z) (seen : bool) : option Z :=
  match l with
  | [] => if seen then Some acc else None
  | c :: rest =>
      if is_digit c
      then digits rest (10 * acc + (Z.of_nat (nat_of_ascii c) - 48))%Z true
      else if (Ascii.eqb c "_" && seen)%bool
           then match rest with
                | d :: _ => if is_digit d then digits rest acc false else None
                | [] => None
                end
           else None
  end.

(** [int(s)] in base ten: surrounding white space, an optional sign, then
    the digits. *)
Definition int10 (s : string) : option Z :=
  let l := rev (lstrip (rev (lstrip (list_ascii_of_string s)))) in
  match l with
  | c :: rest =>
      if Ascii.eqb c "+" then digits rest 0 false
      else if Ascii.eqb c "-" then option_map Z.opp (digits rest 0 false)
      else digits l 0 false
  | [] => None
  end.

Definition zeros (n : nat) : string := string_of_list_ascii (repeat "0"%char n).

(** [pad_num] as [test_pad_num] shows it: zeros in front up to the length,
    all zeros when the text is longer, nothing for a length below one. *)
Definition pad (text : string) (length : Z) : string :=
  let n := Z.to_nat length in
  if (length <=? 0)%Z then ""
  else if (n <? String.length text)%nat then zeros n
  else (zeros (n - String.length text) ++ text)%string.

(** A plain rendering of a tag, its attributes and its text. *)
Definition tag (name : string) (attributes : option (list (list string)))
    (text : option string) (pad_text : option bool) : string :=
  let attrs :=
    match attributes with
    | Some l => String.concat "" (map (fun a => (" " ++ String.concat "=" a)%string) l)
    | None => ""
    end in
  match text with
  | Some t => ("<" ++ name ++ attrs ++ ">" ++ t ++ "</" ++ name ++ ">")%string
  | None => ("<" ++ name ++ attrs ++ ">")%string
  end.

Definition builtins : Html.Builtins := {| Html.int := int10 |}.

Definition html_processing : Html.HtmlProcessing :=
  {| Html.add_escapes := fun s => s;
     Html.create_html_tag := tag |}.

Definition string_processing : Html.StringProcessing :=
  {| Html.get_extension := fun file =>
       let n := String.length file in substring (n - 4) 4 file;
     Html.pad_num := pad |}.

Definition page_lists : Html.PageLists :=
  {| Html.clean_list := List.filter (fun s => negb (String.eqb s ""));
     Html.list_to_string := fun l _ _ => String.concat ", " l |}.

(** A record published on 5 July 2020 at 15:30, and the same record
    without a title. *)
Definition july : Html.Dvk :=
  Html.mkDvk (Some "Title") ["Artist"] "2020/07/05|15:30" None None []
             (Some "/page") None None.

Definition untitled : Html.Dvk :=
  Html.mkDvk None ["Artist"] "2020/07/05|15:30" None None []
             (Some "/page") None None.

(** A record with the month field [00], and one with the month field [13]. *)
Definition month_zero : Html.Dvk :=
  Html.mkDvk (Some "Title") ["Artist"] "2020/00/05|15:30" None None []
             None None None.

Definition month_thirteen : Html.Dvk :=
  Html.mkDvk (Some "Title") ["Artist"] "2020/13/05|15:30" None None []
             None None None.

End PageSample.

(** ** Proof automation *)

(** All the instances of the two laws of a consistent comparator at three
    points, and the case analysis on the integer tests of a goal. *)
Ltac order_facts Hc x y z :=
  let Hs := fresh "Hs" in
  let Ht := fresh "Ht" in
  pose proof Hc as [Hs Ht];
  pose proof (Hs x y); pose proof (Hs y x); pose proof (Hs y z);
  pose proof (Hs z y); pose proof (Hs x z); pose proof (Hs z x);
  pose proof (Ht x y z); pose proof (Ht x z y); pose proof (Ht y x z);
  pose proof (Ht y z x); pose proof (Ht z x y); pose proof (Ht z y x);
  clear Hs Ht.

Ltac split_tests :=
  repeat match goal with
         | |- context [(?a =? ?b)%Z] => destruct (Z.eqb_spec a b)
         | |- context [(?a <? ?b)%Z] => destruct (Z.ltb_spec a b)
         end.

(* ===================================================================== *)
(** * Part II: properties *)
(* ===================================================================== *)

(** ** The built-in [sorted] *)

Section Sorting.
Context {A : Type} (lt : A -> A -> bool).

Let le (x y : A) : Prop := lt y x = false.

Lemma insort_perm (x : A) (l : list A) : Permutation (insort lt x l) (x :: l).
Proof.
  induction l as [|y l IH]; simpl.
  - reflexivity.
  - destruct (lt x y).
    + reflexivity.
    + rewrite IH. apply perm_swap.
Qed.

Lemma fold_insort_perm (l acc : list A) :
  Permutation (fold_left (fun acc x => insort lt x acc) l acc) (acc ++ l).
Proof.
  revert acc. induction l as [|x l IH]; intros acc; simpl.
  - rewrite app_nil_r. reflexivity.
  - rewrite IH, insort_perm. apply Permutation_middle.
Qed.

Lemma py_sorted_perm (l : list A) : Permutation (py_sorted lt l) l.
Proof. unfold py_sorted. apply (fold_insort_perm l []). Qed.

Lemma py_sorted_length (l : list A) :
  List.length (py_sorted lt l) = List.length l.
Proof. apply Permutation_length, py_sorted_perm. Qed.

Lemma insort_append (x : A) (l : list A) :
  Forall (fun y => lt x y = false) l -> insort lt x l = l ++ [x].
Proof.
  induction 1 as [|y l Hy _ IH]; simpl.
  - reflexivity.
  - rewrite Hy, IH. reflexivity.
Qed.

Lemma fold_insort_sorted_input (l acc : list A) :
  StronglySorted le (acc ++ l) ->
  fold_left (fun acc x => insort lt x acc) l acc = acc ++ l.
Proof.
  revert acc. induction l as [|x l IH]; intros acc Hs; simpl.
  - now rewrite app_nil_r.
  - assert (Hx : Forall (fun y => lt x y = false) acc).
    { clear IH. induction acc as [|a acc IHa]; constructor.
      - simpl in Hs. apply StronglySorted_inv in Hs as [_ Hall].
        rewrite List.Forall_forall in Hall. apply Hall.
        apply in_or_app. right. now left.
      - apply IHa. simpl in Hs. now apply StronglySorted_inv in Hs as [Hs _]. }
    rewrite (insort_append x acc Hx).
    rewrite IH; rewrite <- app_assoc; simpl; auto.
Qed.

Lemma py_sorted_fixed (l : list A) :
  StronglySorted le l -> py_sorted lt l = l.
Proof. intros Hs. unfold py_sorted. now rewrite fold_insort_sorted_input. Qed.

Hypothesis lt_order : strict_weak lt.

Lemma insort_sorted (x : A) (l : list A) :
  StronglySorted le l -> StronglySorted le (insort lt x l).
Proof.
  destruct lt_order as [Hasym Htrans].
  induction 1 as [|y l Hs IH Hall]; simpl.
  - constructor; constructor.
  - destruct (lt x y) eqn:Hxy.
    + constructor.
      * now constructor.
      * constructor.
        -- now apply Hasym.
        -- rewrite List.Forall_forall in *. intros z Hz.
           apply (Htrans x y z); [now apply Hasym | now apply Hall].
    + constructor; [exact IH|].
      rewrite List.Forall_forall in *. intros z Hz.
      apply (Permutation_in _ (insort_perm x l)) in Hz.
      destruct Hz as [<-|Hz]; [exact Hxy | now apply Hall].
Qed.

Lemma fold_insort_sorted (l acc : list A) :
  StronglySorted le acc ->
  StronglySorted le (fold_left (fun acc x => insort lt x acc) l acc).
Proof.
  revert acc. induction l as [|x l IH]; intros acc Hs; simpl; auto.
  apply IH, insort_sorted, Hs.
Qed.

Lemma py_sorted_sorted (l : list A) : StronglySorted le (py_sorted lt l).
Proof. apply fold_insort_sorted. constructor. Qed.

Lemma py_sorted_idempotent (l : list A) :
  py_sorted lt (py_sorted lt l) = py_sorted lt l.
Proof. apply py_sorted_fixed, py_sorted_sorted. Qed.
End Sorting.

(** ** Comparators that answer like a total preorder *)

Lemma consistent_ext {A : Type} (c c' : A -> A -> Z) :
  (forall x y, c x y = c' x y) -> consistent c -> consistent c'.
Proof.
  intros E [Hs Ht]. split; intros; rewrite <- ?E in *; eauto.
Qed.

Lemma consistent_tie {A : Type} : consistent (fun _ _ : A => 0%Z).
Proof. split; intros; lia. Qed.

Lemma consistent_three_way : consistent three_way.
Proof.
  unfold three_way. split; [intros x y | intros x y z]; split_tests; lia.
Qed.

Lemma consistent_on {A B : Type} (f : B -> A) (c : A -> A -> Z) :
  consistent c -> consistent (fun x y => c (f x) (f y)).
Proof. intros [Hs Ht]. split; intros; eauto. Qed.

Lemma consistent_lex2 {A : Type} (c1 c2 : A -> A -> Z) :
  consistent c1 -> consistent c2 -> consistent (lex2 c1 c2).
Proof.
  intros H1 H2. unfold lex2. split.
  - intros x y. order_facts H1 x y x. order_facts H2 x y x.
    split_tests; lia.
  - intros x y z. order_facts H1 x y z. order_facts H2 x y z.
    split_tests; lia.
Qed.

Lemma consistent_strict_weak {A : Type} (c : A -> A -> Z) :
  consistent c -> strict_weak (cmp_to_key c).
Proof.
  intros Hc. unfold cmp_to_key. split.
  - intros x y. order_facts Hc x y x. cbv beta.
    rewrite Z.ltb_lt, Z.ltb_ge. lia.
  - intros x y z. order_facts Hc x y z. cbv beta.
    rewrite !Z.ltb_ge. lia.
Qed.

Lemma key_sorted_sorted_by {A : Type} (c : A -> A -> Z) (l : list A) :
  consistent c ->
  StronglySorted (fun x y => cmp_to_key c y x = false) l -> sorted_by c l.
Proof.
  intros Hc Hs. unfold sorted_by.
  induction Hs as [|x l Hs IH Hall]; constructor; auto.
  rewrite List.Forall_forall in *. intros y Hy. specialize (Hall y Hy).
  unfold cmp_to_key in Hall. apply Z.ltb_ge in Hall.
  order_facts Hc x y x. lia.
Qed.

Lemma sorted_by_key_sorted {A : Type} (c : A -> A -> Z) (l : list A) :
  consistent c ->
  sorted_by c l -> StronglySorted (fun x y => cmp_to_key c y x = false) l.
Proof.
  intros Hc Hs. unfold sorted_by in Hs.
  induction Hs as [|x l Hs IH Hall]; constructor; auto.
  rewrite List.Forall_forall in *. intros y Hy. specialize (Hall y Hy).
  unfold cmp_to_key. apply Z.ltb_ge.
  order_facts Hc x y x. lia.
Qed.

(** ** The orders of the Python runtime *)

Lemma lex_cmp_consistent {A : Type} (c : A -> A -> Z) :
  consistent c -> consistent (lex_cmp c).
Proof.
  intros Hc. split.
  - intros x. induction x as [|a x IH]; intros [|b y]; simpl; try lia.
    order_facts Hc a b a. split_tests; try lia. apply IH.
  - intros x. induction x as [|a x IH]; intros [|b y] [|d z]; simpl; try lia.
    order_facts Hc a b d. split_tests; try lia. apply IH.
Qed.

Lemma char_cmp_consistent : consistent char_cmp.
Proof.
  apply (consistent_on (fun a => Z.of_N (N_of_ascii a))), consistent_three_way.
Qed.

Lemma str_cmp_consistent : consistent str_cmp.
Proof.
  apply (consistent_on list_ascii_of_string), lex_cmp_consistent,
    char_cmp_consistent.
Qed.

Lemma path_lt_strict_weak : strict_weak path_lt.
Proof.
  apply (consistent_strict_weak
           (fun p q => lex_cmp (lex_cmp char_cmp) (parts p) (parts q))).
  apply (consistent_on parts), lex_cmp_consistent, lex_cmp_consistent,
    char_cmp_consistent.
Qed.

(** ** The comparators of the handler *)

Section Comparators.
Context `{SC : StringCompare} `{LP : ListProcessing}.

Lemma compare_alpha_chain (g : bool) (x y : Dvk) :
  compare_alpha g (Some x) (Some y)
  = lex2 (by_artists g) (lex2 by_title by_time) x y.
Proof.
  unfold compare_alpha, lex2, by_artists, by_title, by_time.
  destruct g; cbv zeta; split_tests; try reflexivity; try lia.
Qed.

Lemma compare_time_chain (g : bool) (x y : Dvk) :
  compare_time g (Some x) (Some y)
  = lex2 (by_artists g) (lex2 by_time by_title) x y.
Proof.
  unfold compare_time, lex2, by_artists, by_title, by_time.
  destruct g; cbv zeta; split_tests; try reflexivity; try lia.
Qed.

Lemma compare_ratings_chain (g : bool) (x y : Dvk) :
  compare_ratings g (Some x) (Some y)
  = lex2 (by_artists g) (lex2 by_rating (on_records (compare_alpha g))) x y.
Proof.
  unfold compare_ratings, lex2, by_artists, by_rating, three_way, on_records.
  destruct g; cbv zeta; split_tests; try reflexivity; try lia.
Qed.

Lemma compare_views_chain (g : bool) (x y : Dvk) :
  compare_views g (Some x) (Some y)
  = lex2 (by_artists g) (lex2 by_views (on_records (compare_alpha g))) x y.
Proof.
  unfold compare_views, lex2, by_artists, by_views, three_way, on_records.
  destruct g; cbv zeta; split_tests; try reflexivity; try lia.
Qed.

Hypothesis strings_consistent : consistent compare_strings.
Hypothesis alphanum_consistent : consistent compare_alphanum.

Lemma by_artists_consistent (g : bool) : consistent (by_artists g).
Proof.
  destruct g; unfold by_artists.
  - unfold compare_artists.
    apply (consistent_on (fun d => list_to_string (get_artists d))),
      alphanum_consistent.
  - apply consistent_tie.
Qed.

Lemma by_title_consistent : consistent by_title.
Proof. apply (consistent_on get_title), alphanum_consistent. Qed.

Lemma by_time_consistent : consistent by_time.
Proof. apply (consistent_on get_time), strings_consistent. Qed.

Lemma compare_alpha_consistent (g : bool) :
  consistent (on_records (compare_alpha g)).
Proof.
  apply (consistent_ext (lex2 (by_artists g) (lex2 by_title by_time))).
  - intros x y. symmetry. apply compare_alpha_chain.
  - auto using consistent_lex2, by_artists_consistent, by_title_consistent,
      by_time_consistent.
Qed.

Lemma compare_time_consistent (g : bool) :
  consistent (on_records (compare_time g)).
Proof.
  apply (consistent_ext (lex2 (by_artists g) (lex2 by_time by_title))).
  - intros x y. symmetry. apply compare_time_chain.
  - auto using consistent_lex2, by_artists_consistent, by_title_consistent,
      by_time_consistent.
Qed.

Lemma compare_ratings_consistent (g : bool) :
  consistent (on_records (compare_ratings g)).
Proof.
  apply (consistent_ext
           (lex2 (by_artists g) (lex2 by_rating (on_records (compare_alpha g))))).
  - intros x y. symmetry. apply compare_ratings_chain.
  - apply consistent_lex2; [apply by_artists_consistent|].
    apply consistent_lex2; [|apply compare_alpha_consistent].
    apply (consistent_on get_rating), consistent_three_way.
Qed.

Lemma compare_views_consistent (g : bool) :
  consistent (on_records (compare_views g)).
Proof.
  apply (consistent_ext
           (lex2 (by_artists g) (lex2 by_views (on_records (compare_alpha g))))).
  - intros x y. symmetry. apply compare_views_chain.
  - apply consistent_lex2; [apply by_artists_consistent|].
    apply consistent_lex2; [|apply compare_alpha_consistent].
    apply (consistent_on get_views), consistent_three_way.
Qed.

Lemma select_comparator_consistent (t : string) (g : bool) :
  consistent (on_records (select_comparator t g)).
Proof.
  unfold select_comparator.
  destruct (String.eqb t "t"); [apply compare_time_consistent|].
  destruct (String.eqb t "r"); [apply compare_ratings_consistent|].
  destruct (String.eqb t "v"); [apply compare_views_consistent|].
  apply compare_alpha_consistent.
Qed.
End Comparators.

(** ** Python lists and loops *)

Lemma py_index_nat {A : Type} (l : list A) (i : nat) (d : A) :
  i < List.length l -> py_index l (Z.of_nat i) = Ok (nth i l d).
Proof.
  intros Hi. unfold py_index.
  destruct (Z.ltb_spec (Z.of_nat i) 0); [lia|].
  destruct (Z.leb_spec 0 (Z.of_nat i)); [|lia].
  destruct (Z.ltb_spec (Z.of_nat i) (Z.of_nat (List.length l))); [|lia].
  cbn [andb]. rewrite Nat2Z.id.
  rewrite (nth_error_nth' l d Hi). reflexivity.
Qed.

Lemma for_append_from {X Y : Type} (f : X -> result Y) (g : X -> Y)
    (xs : list X) (out : list Y) :
  (forall x, In x xs -> f x = Ok (g x)) ->
  fold_left (fun acc x =>
               bind acc (fun out => bind (f x) (fun y => Ok (out ++ [y]))))
            xs (Ok out)
  = Ok (out ++ map g xs).
Proof.
  revert out. induction xs as [|x xs IH]; intros out Hf; simpl.
  - now rewrite app_nil_r.
  - rewrite (Hf x (or_introl eq_refl)). simpl.
    rewrite IH by (intros; apply Hf; now right).
    now rewrite <- app_assoc.
Qed.

Lemma for_append_ok {X Y : Type} (f : X -> result Y) (g : X -> Y)
    (xs : list X) :
  (forall x, In x xs -> f x = Ok (g x)) -> for_append f xs = Ok (map g xs).
Proof. intros Hf. unfold for_append. now rewrite (for_append_from f g). Qed.

(** ** State of the handler after each operation *)

Lemma reset_loop (l : list nat) (h : DvkHandler) :
  fold_left (fun h i => set_sorted h (sorted h ++ [i])) l h
  = set_sorted h (sorted h ++ l).
Proof.
  revert h. induction l as [|i l IH]; intros h; simpl.
  - rewrite app_nil_r. now destruct h.
  - rewrite IH. simpl. now rewrite <- app_assoc.
Qed.

Lemma reset_sorted_state (h : DvkHandler) :
  reset_sorted h
  = mkHandler (dvks h) (seq 0 (List.length (dvks h))) (paths h) (group_artists h).
Proof. unfold reset_sorted. rewrite reset_loop. reflexivity. Qed.

Lemma extend_loop `{DvkFiles} (ps : list Path) (h : DvkHandler) :
  fold_left (fun h path => set_dvks h (dvks h ++ read_dvks path)) ps h
  = set_dvks h (dvks h ++ List.concat (map read_dvks ps)).
Proof.
  revert h. induction ps as [|p ps IH]; intros h; simpl.
  - rewrite app_nil_r. now destruct h.
  - rewrite IH. simpl. now rewrite <- app_assoc.
Qed.

Lemma load_dvks_state `{FileSystem} `{ListProcessing} `{DvkFiles}
    (h : DvkHandler) (roots : option (list (option string))) :
  let records := List.concat (map read_dvks (get_directories roots)) in
  load_dvks h roots
  = mkHandler records (seq 0 (List.length records)) (get_directories roots)
              (group_artists h).
Proof.
  cbv zeta. unfold load_dvks. cbv zeta.
  rewrite reset_sorted_state, extend_loop. reflexivity.
Qed.

Lemma sort_dvks_sorted `{StringCompare} `{ListProcessing}
    (h : DvkHandler) (mode : option string) (g : bool) :
  sorted (sort_dvks h mode g) = sorted h.
Proof.
  unfold sort_dvks. destruct mode as [t|]; [|reflexivity].
  destruct (0 <? _)%nat; reflexivity.
Qed.

Lemma sort_dvks_paths `{StringCompare} `{ListProcessing}
    (h : DvkHandler) (mode : option string) (g : bool) :
  paths (sort_dvks h mode g) = paths h.
Proof.
  unfold sort_dvks. destruct mode as [t|]; [|reflexivity].
  destruct (0 <? _)%nat; reflexivity.
Qed.

Lemma sort_dvks_perm `{StringCompare} `{ListProcessing}
    (h : DvkHandler) (mode : option string) (g : bool) :
  Permutation (dvks (sort_dvks h mode g)) (dvks h).
Proof.
  unfold sort_dvks. destruct mode as [t|]; [|reflexivity].
  destruct (0 <? _)%nat; [|reflexivity].
  simpl. apply py_sorted_perm.
Qed.

Lemma sort_dvks_size `{StringCompare} `{ListProcessing}
    (h : DvkHandler) (mode : option string) (g : bool) :
  get_size (sort_dvks h mode g) = get_size h.
Proof. unfold get_size. now rewrite sort_dvks_sorted. Qed.

Lemma index_inv_init : index_inv DvkHandler_init.
Proof. split; reflexivity. Qed.

Lemma index_inv_load `{FileSystem} `{ListProcessing} `{DvkFiles}
    (h : DvkHandler) (roots : option (list (option string))) :
  index_inv (load_dvks h roots).
Proof.
  rewrite load_dvks_state. split; simpl.
  - apply length_seq.
  - reflexivity.
Qed.

Lemma index_inv_reset (h : DvkHandler) : index_inv (reset_sorted h).
Proof.
  rewrite reset_sorted_state. split; simpl.
  - apply length_seq.
  - reflexivity.
Qed.

Lemma index_inv_sort `{StringCompare} `{ListProcessing}
    (h : DvkHandler) (mode : option string) (g : bool) :
  index_inv h -> index_inv (sort_dvks h mode g).
Proof.
  intros [Hlen Hperm]. unfold index_inv.
  rewrite sort_dvks_sorted, (Permutation_length (sort_dvks_perm h mode g)).
  now split.
Qed.

Lemma reachable_index_inv `{StringCompare} `{FileSystem} `{ListProcessing}
    `{DvkFiles} (h : DvkHandler) :
  reachable h -> index_inv h.
Proof.
  induction 1.
  - apply index_inv_init.
  - apply index_inv_load.
  - apply index_inv_reset.
  - now apply index_inv_sort.
Qed.

Lemma reachable_identity `{StringCompare} `{FileSystem} `{ListProcessing}
    `{DvkFiles} (h : DvkHandler) :
  reachable h -> sorted h = seq 0 (List.length (dvks h)).
Proof.
  induction 1.
  - reflexivity.
  - now rewrite load_dvks_state.
  - now rewrite reset_sorted_state.
  - rewrite sort_dvks_sorted, (Permutation_length (sort_dvks_perm h mode group)).
    assumption.
Qed.

Lemma index_inv_bound (h : DvkHandler) (i : nat) :
  index_inv h -> i < get_size h ->
  nth i (sorted h) 0 < List.length (dvks h).
Proof.
  intros [Hlen Hperm] Hi.
  assert (Hin : In (nth i (sorted h) 0) (seq 0 (List.length (dvks h)))).
  { apply (Permutation_in _ Hperm). now apply nth_In. }
  apply in_seq in Hin. lia.
Qed.

(** ** Index access *)

Lemma get_dvk_direct_outside `{DvkFiles} (h : DvkHandler) (i : Z) :
  (i < 0 \/ Z.of_nat (get_size h) <= i)%Z -> get_dvk_direct h i = Ok Dvk_new.
Proof.
  intros Hi. unfold get_dvk_direct.
  destruct (Z.ltb_spec (-1) i); destruct (Z.ltb_spec i (Z.of_nat (get_size h)));
    try reflexivity; lia.
Qed.

Lemma get_dvk_sorted_outside `{DvkFiles} (h : DvkHandler) (i : Z) :
  (i < 0 \/ Z.of_nat (get_size h) <= i)%Z -> get_dvk_sorted h i = Ok Dvk_new.
Proof.
  intros Hi. unfold get_dvk_sorted.
  destruct (Z.ltb_spec (-1) i); destruct (Z.ltb_spec i (Z.of_nat (get_size h)));
    try reflexivity; lia.
Qed.

Lemma get_dvk_direct_inside `{DvkFiles} (h : DvkHandler) (i : nat) :
  i < get_size h -> i < List.length (dvks h) ->
  get_dvk_direct h (Z.of_nat i) = Ok (nth i (dvks h) Dvk_new).
Proof.
  intros Hi Hd. unfold get_dvk_direct.
  destruct (Z.ltb_spec (-1) (Z.of_nat i)); [|lia].
  destruct (Z.ltb_spec (Z.of_nat i) (Z.of_nat (get_size h))); [|lia].
  cbn [andb]. now apply py_index_nat.
Qed.

Lemma get_dvk_sorted_inside `{DvkFiles} (h : DvkHandler) (i : nat) :
  index_inv h -> i < get_size h ->
  get_dvk_sorted h (Z.of_nat i)
  = Ok (nth (nth i (sorted h) 0) (dvks h) Dvk_new).
Proof.
  intros Hinv Hi. unfold get_dvk_sorted.
  destruct (Z.ltb_spec (-1) (Z.of_nat i)); [|lia].
  destruct (Z.ltb_spec (Z.of_nat i) (Z.of_nat (get_size h))); [|lia].
  cbn [andb]. rewrite (py_index_nat (sorted h) i 0 Hi). cbn [bind].
  pose proof (index_inv_bound h i Hinv Hi) as Hb.
  apply get_dvk_direct_inside; [|exact Hb].
  destruct Hinv as [Hlen _]. unfold get_size. lia.
Qed.

(** C3: on a handler whose index invariant holds, an index that is negative
    or at least [get_size()] makes [get_dvk_sorted] and [get_dvk_direct]
    return the empty record [Dvk()] without raising; for
    [0 <= i < get_size()], [get_dvk_sorted(i)] returns [dvks[sorted[i]]] and
    [get_dvk_direct(i)] returns [dvks[i]]. *)
Theorem index_access `{DvkFiles} (h : DvkHandler) (i : Z) :
  index_inv h ->
  ((i < 0 \/ Z.of_nat (get_size h) <= i)%Z ->
   get_dvk_sorted h i = Ok Dvk_new /\ get_dvk_direct h i = Ok Dvk_new) /\
  ((0 <= i < Z.of_nat (get_size h))%Z ->
   (exists j d, nth_error (sorted h) (Z.to_nat i) = Some j /\
                nth_error (dvks h) j = Some d /\
                get_dvk_sorted h i = Ok d) /\
   (exists d, nth_error (dvks h) (Z.to_nat i) = Some d /\
              get_dvk_direct h i = Ok d)).
Proof.
  intros Hinv. split.
  - intros Hi. split.
    + now apply get_dvk_sorted_outside.
    + now apply get_dvk_direct_outside.
  - intros Hi.
    assert (Hn : Z.to_nat i < get_size h) by lia.
    assert (Hz : i = Z.of_nat (Z.to_nat i)) by lia.
    pose proof (index_inv_bound h _ Hinv Hn) as Hb.
    assert (Hlen : get_size h = List.length (dvks h)) by apply Hinv.
    split.
    + exists (nth (Z.to_nat i) (sorted h) 0).
      exists (nth (nth (Z.to_nat i) (sorted h) 0) (dvks h) Dvk_new).
      split; [now apply nth_error_nth'|].
      split; [now apply nth_error_nth'|].
      rewrite Hz at 1. now apply get_dvk_sorted_inside.
    + exists (nth (Z.to_nat i) (dvks h) Dvk_new).
      split; [apply nth_error_nth'; lia|].
      rewrite Hz at 1. apply get_dvk_direct_inside; lia.
Qed.

(** ** Loading *)

(** C4: after [load_dvks(roots)], whatever the handler held before, [dvks]
    is the concatenation of what the loader returns for each leaf directory,
    [sorted] is the identity [0, 1, ..., n-1] for the total number [n] of
    those records, and [get_size()] is [n]. *)
Theorem load_resets_index `{FileSystem} `{ListProcessing} `{DvkFiles}
    (h : DvkHandler) (roots : option (list (option string))) :
  let n := list_sum (map (fun dir => List.length (read_dvks dir))
                         (get_directories roots)) in
  dvks (load_dvks h roots) = List.concat (map read_dvks (get_directories roots))
  /\ sorted (load_dvks h roots) = seq 0 n
  /\ get_size (load_dvks h roots) = n.
Proof.
  cbv zeta. rewrite load_dvks_state. unfold get_size. simpl.
  rewrite length_seq, length_concat, map_map. auto.
Qed.

(** ** The index invariant *)

(** C6: the invariant "[sorted] is as long as [dvks] and is a permutation
    of [0 .. n-1]" holds for a new handler, holds after [load_dvks] and after
    [reset_sorted], is kept by [sort_dvks] (the accessors leave the handler
    as it is), hence holds of every handler the public operations produce;
    under it neither [get_dvk_sorted] nor [get_dvk_direct] raises at any
    index. *)
Theorem index_invariant `{StringCompare} `{FileSystem} `{ListProcessing}
    `{DvkFiles} :
  index_inv DvkHandler_init /\
  (forall h roots, index_inv (load_dvks h roots)) /\
  (forall h, index_inv (reset_sorted h)) /\
  (forall h mode group, index_inv h -> index_inv (sort_dvks h mode group)) /\
  (forall h, reachable h -> index_inv h) /\
  (forall h i, index_inv h ->
     (exists d, get_dvk_sorted h i = Ok d) /\
     (exists d, get_dvk_direct h i = Ok d)).
Proof.
  split; [apply index_inv_init|].
  split; [intros; apply index_inv_load|].
  split; [intros; apply index_inv_reset|].
  split; [intros; now apply index_inv_sort|].
  split; [intros; now apply reachable_index_inv|].
  intros h i Hinv.
  destruct (Z_lt_ge_dec i 0) as [Hneg|Hpos].
  - rewrite get_dvk_sorted_outside, get_dvk_direct_outside by lia. eauto.
  - destruct (Z_lt_ge_dec i (Z.of_nat (get_size h))) as [Hlt|Hge].
    + assert (Hn : Z.to_nat i < get_size h) by lia.
      assert (Hlen : get_size h = List.length (dvks h)) by apply Hinv.
      replace i with (Z.of_nat (Z.to_nat i)) by lia.
      rewrite get_dvk_sorted_inside, get_dvk_direct_inside by (auto; lia).
      eauto.
    + rewrite get_dvk_sorted_outside, get_dvk_direct_outside by lia. eauto.
Qed.

(** ** Sorting *)

Lemma specified_is_selected `{StringCompare} `{ListProcessing} (t : string) :
  specified_comparator (Some t) = select_comparator t.
Proof.
  unfold specified_comparator, select_comparator.
  destruct t as [|[[] [] [] [] [] [] [] []] [|b t]]; reflexivity.
Qed.

Lemma sort_dvks_present `{StringCompare} `{ListProcessing}
    (h : DvkHandler) (t : string) (g : bool) :
  0 < get_size h ->
  dvks (sort_dvks h (Some t) g)
  = py_sorted (cmp_to_key (on_records (select_comparator t g))) (dvks h).
Proof.
  intros Hs. unfold sort_dvks.
  replace (get_size (set_group_artists h g)) with (get_size h) by reflexivity.
  destruct (Nat.ltb_spec 0 (get_size h)); [reflexivity | lia].
Qed.

Lemma sort_dvks_sorted_by `{StringCompare} `{ListProcessing}
    (h : DvkHandler) (t : string) (g : bool) :
  consistent compare_strings -> consistent compare_alphanum ->
  0 < get_size h ->
  sorted_by (on_records (select_comparator t g)) (dvks (sort_dvks h (Some t) g)).
Proof.
  intros Hstr Hnum Hs. rewrite sort_dvks_present by assumption.
  pose proof (select_comparator_consistent Hstr Hnum t g) as Hc.
  apply key_sorted_sorted_by; [exact Hc|].
  apply py_sorted_sorted, consistent_strict_weak, Hc.
Qed.

(** C2, amended: on a handler with [get_size() > 0], [sort_dvks] with a mode
    that is present leaves [dvks] a permutation of the old list in ascending
    order under the comparator of that mode (time for ["t"], ratings for
    ["r"], views for ["v"], alphabetic for any other string); with the mode
    absent ([None], the default) the records stay exactly as they were.  The
    comparators of the imported string module are assumed consistent. *)
Theorem sort_orders_records `{StringCompare} `{ListProcessing}
    (h : DvkHandler) (mode : option string) (g : bool) :
  consistent compare_strings -> consistent compare_alphanum ->
  0 < get_size h ->
  match mode with
  | Some t =>
      sorted_by (on_records (specified_comparator mode g))
                (dvks (sort_dvks h mode g)) /\
      Permutation (dvks (sort_dvks h mode g)) (dvks h)
  | None => dvks (sort_dvks h mode g) = dvks h
  end.
Proof.
  intros Hstr Hnum Hs. destruct mode as [t|].
  - split.
    + rewrite specified_is_selected. now apply sort_dvks_sorted_by.
    + apply sort_dvks_perm.
  - reflexivity.
Qed.

(** C7: sorting twice with the same mode and the same grouping flag leaves
    the handler exactly as sorting once does, provided the comparators of the
    imported string module are consistent. *)
Theorem sort_idempotent `{StringCompare} `{ListProcessing}
    (h : DvkHandler) (mode : option string) (g : bool) :
  consistent compare_strings -> consistent compare_alphanum ->
  sort_dvks (sort_dvks h mode g) mode g = sort_dvks h mode g.
Proof.
  intros Hstr Hnum. destruct mode as [t|]; [|reflexivity].
  pose proof (select_comparator_consistent Hstr Hnum t g) as Hc.
  apply consistent_strict_weak in Hc.
  unfold sort_dvks. destruct h as [ds ss ps ga]. unfold get_size. simpl.
  destruct (0 <? List.length ss)%nat eqn:Hsize; simpl.
  - rewrite Hsize. unfold set_dvks. simpl.
    now rewrite (py_sorted_idempotent _ Hc).
  - rewrite Hsize. reflexivity.
Qed.

(** ** The directory scanner *)

Lemma scan_directory_loop `{FileSystem} (dirs paths : list Path) :
  fold_left scan_directory dirs paths
  = paths ++ List.filter
               (fun dir => existsb (fun file => endswith file ".dvk") (listdir dir))
               dirs.
Proof.
  revert paths. induction dirs as [|d dirs IH]; intros paths; simpl.
  - now rewrite app_nil_r.
  - rewrite IH. unfold scan_directory.
    destruct (existsb _ (listdir d)); [now rewrite <- app_assoc | reflexivity].
Qed.

Lemma scan_root_loop `{FileSystem} (strs : list (option string))
    (paths : list Path) :
  fold_left scan_root strs paths
  = paths ++ flat_map (fun d => scan_root [] d) strs.
Proof.
  revert paths. induction strs as [|d strs IH]; intros paths; simpl.
  - now rewrite app_nil_r.
  - rewrite IH, app_assoc. f_equal.
    unfold scan_root. destruct d as [s|]; [|now rewrite app_nil_r].
    destruct (negb (String.eqb s "")); [|now rewrite app_nil_r].
    now rewrite !scan_directory_loop.
Qed.

Lemma scan_root_unusable `{FileSystem} (d : option string) :
  usable_root d = false -> scan_root [] d = [].
Proof.
  destruct d as [s|]; [|reflexivity]. simpl. intros ->. reflexivity.
Qed.

Lemma scan_root_loop_usable `{FileSystem} (strs : list (option string)) :
  fold_left scan_root (List.filter usable_root strs) []
  = fold_left scan_root strs [].
Proof.
  rewrite !scan_root_loop. simpl.
  induction strs as [|d strs IH]; [reflexivity|]. simpl.
  destruct (usable_root d) eqn:Hd; simpl.
  - now rewrite IH.
  - now rewrite scan_root_unusable.
Qed.

Lemma scan_root_loop_in `{FileSystem} (strs : list (option string)) (dir : Path) :
  In dir (fold_left scan_root strs [])
  <-> walked_from strs dir /\ holds_dvk_file dir.
Proof.
  rewrite scan_root_loop. simpl. rewrite in_flat_map.
  unfold walked_from, holds_dvk_file. split.
  - intros [d [Hd Hin]]. unfold scan_root in Hin.
    destruct d as [s|]; [|destruct Hin].
    destruct (String.eqb_spec s ""); simpl in Hin; [destruct Hin|].
    rewrite scan_directory_loop in Hin. simpl in Hin.
    apply filter_In in Hin as [Hw Hex]. apply existsb_exists in Hex.
    split; eauto.
  - intros [[s [Hs [Hne Hw]]] Hex]. exists (Some s). split; [exact Hs|].
    unfold scan_root. destruct (String.eqb_spec s ""); [contradiction|]. simpl.
    rewrite scan_directory_loop. simpl. apply filter_In. split; [exact Hw|].
    now apply existsb_exists.
Qed.

(** C8, amended: [get_directories] returns the empty list for [None] and
    for an empty input; for any input list the result has no duplicates, is
    ascending under the order of [Path] objects (parts compared one by one),
    contains a directory exactly when the walk from a usable entry reaches it
    and [listdir] shows in it a name ending in [.dvk], and is unchanged when
    the [None] and empty-string entries are dropped from the input.  Assumed
    of the imported [clean_list]: it removes duplicates and nothing else. *)
Theorem get_directories_spec `{FileSystem} `{ListProcessing} :
  removes_duplicates clean_list ->
  get_directories None = [] /\
  get_directories (Some []) = [] /\
  forall strs,
    NoDup (get_directories (Some strs)) /\
    ascending path_lt (get_directories (Some strs)) /\
    (forall dir, In dir (get_directories (Some strs))
                 <-> walked_from strs dir /\ holds_dvk_file dir) /\
    get_directories (Some (List.filter usable_root strs))
    = get_directories (Some strs).
Proof.
  intros Hclean.
  assert (Hin : forall strs dir,
             In dir (get_directories (Some strs))
             <-> walked_from strs dir /\ holds_dvk_file dir).
  { intros strs dir. unfold get_directories.
    rewrite <- scan_root_loop_in.
    etransitivity; [|apply (proj2 (Hclean (fold_left scan_root strs [])))].
    split; apply Permutation_in; [|symmetry]; apply py_sorted_perm. }
  split; [reflexivity|]. split.
  - destruct (get_directories (Some [])) as [|p l] eqn:E; [reflexivity|].
    assert (Hp : In p (get_directories (Some []))) by (rewrite E; now left).
    apply Hin in Hp as [[s [[] _]] _].
  - intros strs. split; [|split; [|split]].
    + unfold get_directories.
      apply (Permutation_NoDup (l := clean_list (fold_left scan_root strs []))).
      * symmetry. apply py_sorted_perm.
      * apply Hclean.
    + unfold get_directories, ascending.
      apply py_sorted_sorted, path_lt_strict_weak.
    + apply Hin.
    + unfold get_directories. now rewrite scan_root_loop_usable.
Qed.

(** ** The marking scan of [same_ids] *)

Section Marking.
Variable ids : list string.

Lemma same_id_iff (i k : nat) :
  same_id ids i k = true <-> nth i ids "" = nth k ids "".
Proof. unfold same_id. apply String.eqb_eq. Qed.

Lemma same_id_refl (i : nat) : same_id ids i i = true.
Proof. now apply same_id_iff. Qed.

Lemma same_id_sym (i k : nat) : same_id ids i k = same_id ids k i.
Proof. unfold same_id. apply String.eqb_sym. Qed.

Lemma same_id_trans (i j k : nat) :
  same_id ids i j = true -> same_id ids j k = true -> same_id ids i k = true.
Proof. rewrite !same_id_iff. congruence. Qed.

Lemma py_in_iff (x : nat) (l : list nat) : py_in x l = true <-> In x l.
Proof.
  unfold py_in. rewrite existsb_exists. split.
  - intros [y [Hy Heq]]. apply Nat.eqb_eq in Heq. now subst.
  - intros Hx. exists x. split; [exact Hx | apply Nat.eqb_refl].
Qed.

Lemma py_in_app (x : nat) (l1 l2 : list nat) :
  py_in x (l1 ++ l2) = (py_in x l1 || py_in x l2)%bool.
Proof. unfold py_in. apply existsb_app. Qed.

(** The inner loop once [i] is marked: every partner is appended. *)
Lemma inner_loop_marked (i : nat) (ks s : list nat) :
  py_in i s = true ->
  fold_left (mark_partner ids i) ks s = s ++ List.filter (same_id ids i) ks.
Proof.
  revert s. induction ks as [|k ks IH]; intros s Hs; simpl.
  - now rewrite app_nil_r.
  - unfold mark_partner at 2. fold (same_id ids i k).
    destruct (same_id ids i k).
    + rewrite Hs. simpl. rewrite IH.
      * now rewrite <- app_assoc.
      * rewrite py_in_app, Hs. reflexivity.
    + now apply IH.
Qed.

(** The inner loop while [i] is unmarked: the first partner marks both. *)
Lemma inner_loop_unmarked (i : nat) (ks s : list nat) :
  py_in i s = false ->
  fold_left (mark_partner ids i) ks s
  = s ++ match List.filter (same_id ids i) ks with
         | [] => []
         | k :: ks' => i :: k :: ks'
         end.
Proof.
  revert s. induction ks as [|k ks IH]; intros s Hs; simpl.
  - now rewrite app_nil_r.
  - unfold mark_partner at 2. fold (same_id ids i k).
    destruct (same_id ids i k).
    + rewrite Hs. simpl. rewrite inner_loop_marked.
      * rewrite <- !app_assoc. reflexivity.
      * rewrite !py_in_app. simpl. rewrite Nat.eqb_refl.
        now rewrite orb_true_r.
    + now apply IH.
Qed.

Lemma first_occurrence_false (i : nat) :
  first_occurrence ids i = false <->
  exists q, q < i /\ same_id ids q i = true.
Proof.
  unfold first_occurrence. split.
  - intros Hf.
    destruct (forallb _ (seq 0 i)) eqn:E; [discriminate|].
    apply not_true_iff_false in E.
    rewrite forallb_forall in E.
    destruct (existsb (fun q => same_id ids q i) (seq 0 i)) eqn:Ex.
    + apply existsb_exists in Ex as [q [Hq Hs]].
      apply in_seq in Hq. exists q. split; [lia | exact Hs].
    + exfalso. apply E. intros q Hq.
      destruct (same_id ids q i) eqn:Hs; [|reflexivity].
      assert (Ht : existsb (fun q => same_id ids q i) (seq 0 i) = true).
      { apply existsb_exists. eauto. }
      congruence.
  - intros [q [Hq Hs]].
    apply not_true_iff_false. rewrite forallb_forall. intros Hall.
    specialize (Hall q). rewrite Hs in Hall.
    assert (In q (seq 0 i)) by (apply in_seq; lia).
    specialize (Hall H). discriminate.
Qed.

Lemma earliest_same_id (i q : nat) :
  same_id ids q i = true ->
  exists q0, q0 <= q /\ same_id ids q0 i = true /\
             first_occurrence ids q0 = true.
Proof.
  induction q as [q IH] using lt_wf_ind. intros Hs.
  destruct (first_occurrence ids q) eqn:Hf.
  - exists q. auto.
  - apply first_occurrence_false in Hf as [q' [Hlt Hs']].
    destruct (IH q' Hlt (same_id_trans _ _ _ Hs' Hs)) as [q0 [Hle [H0 Hf0]]].
    exists q0. split; [lia | auto].
Qed.

Lemma in_partners (i k : nat) :
  In k (partners ids i)
  <-> i < k /\ k < List.length ids /\ same_id ids i k = true.
Proof.
  unfold partners. rewrite filter_In, in_seq. split; intros; intuition lia.
Qed.

Lemma in_cluster (i p : nat) :
  In p (cluster ids i) ->
  first_occurrence ids i = true /\ same_id ids i p = true /\ i <= p /\
  p < List.length ids /\ exists k, In k (partners ids i).
Proof.
  unfold cluster. destruct (first_occurrence ids i); [|intros []].
  destruct (partners ids i) as [|k ks] eqn:E; [intros []|].
  intros [<-|Hp].
  - assert (Hk : In k (partners ids i)) by (rewrite E; now left).
    pose proof (proj1 (in_partners _ _) Hk).
    split; [reflexivity|]. split; [apply same_id_refl|].
    split; [lia|]. split; [lia|]. exists k. now left.
  - rewrite <- E in Hp. pose proof (proj1 (in_partners _ _) Hp).
    split; [reflexivity|]. split; [tauto|].
    split; [lia|]. split; [lia|]. exists p. now rewrite <- E.
Qed.

Lemma cluster_intro (i p : nat) :
  first_occurrence ids i = true -> In p (partners ids i) ->
  In i (cluster ids i) /\ In p (cluster ids i).
Proof.
  intros Hf Hp. unfold cluster. rewrite Hf.
  destruct (partners ids i) as [|k ks]; [destruct Hp|].
  split; [now left | now right].
Qed.

(** A position is marked before its turn exactly when an earlier position
    has its id. *)
Lemma marked_before (i : nat) :
  i < List.length ids ->
  In i (flat_map (cluster ids) (seq 0 i)) <-> first_occurrence ids i = false.
Proof.
  intros Hi. rewrite first_occurrence_false, in_flat_map. split.
  - intros [q [Hq Hin]]. apply in_seq in Hq.
    apply in_cluster in Hin. exists q. split; [lia | tauto].
  - intros [q [Hq Hs]].
    destruct (earliest_same_id i q Hs) as [q0 [Hle [H0 Hf0]]].
    exists q0. split; [apply in_seq; lia|].
    apply (cluster_intro q0 i Hf0). apply in_partners.
    split; [lia|]. split; [lia | exact H0].
Qed.

Lemma mark_from_step (i : nat) :
  i < List.length ids ->
  mark_from ids (List.length ids) (flat_map (cluster ids) (seq 0 i)) i
  = flat_map (cluster ids) (seq 0 i) ++ cluster ids i.
Proof.
  intros Hi. unfold mark_from.
  destruct (py_in i (flat_map (cluster ids) (seq 0 i))) eqn:Hm; simpl.
  - apply py_in_iff, marked_before in Hm; [|exact Hi].
    unfold cluster. rewrite Hm. now rewrite app_nil_r.
  - rewrite inner_loop_unmarked by exact Hm.
    assert (Hf : first_occurrence ids i = true).
    { destruct (first_occurrence ids i) eqn:E; [reflexivity|].
      apply marked_before, py_in_iff in E; [congruence | exact Hi]. }
    unfold cluster. rewrite Hf. reflexivity.
Qed.

Lemma outer_loop (m : nat) :
  m <= List.length ids ->
  fold_left (mark_from ids (List.length ids)) (seq 0 m) []
  = flat_map (cluster ids) (seq 0 m).
Proof.
  induction m as [|m IH]; intros Hm; [reflexivity|].
  rewrite seq_S, fold_left_app, flat_map_app. simpl.
  rewrite IH by lia. rewrite mark_from_step by lia.
  now rewrite app_nil_r.
Qed.

(** The scan of the source computes the cluster order of the specification. *)
Lemma find_identical_cluster_order :
  find_identical ids (List.length ids) = cluster_order ids.
Proof. unfold find_identical, cluster_order. now apply outer_loop. Qed.
End Marking.

(** ** The cluster order *)

Lemma NoDup_flat_map_disjoint {X Y : Type} (f : X -> list Y) (l : list X) :
  NoDup l ->
  (forall x, In x l -> NoDup (f x)) ->
  (forall x y b, In x l -> In y l -> In b (f x) -> In b (f y) -> x = y) ->
  NoDup (flat_map f l).
Proof.
  induction 1 as [|x l Hx Hnd IH]; intros Hf Hdis; simpl; [constructor|].
  apply NoDup_app.
  - apply Hf. now left.
  - apply IH.
    + intros y Hy. apply Hf. now right.
    + intros y z b Hy Hz. apply Hdis; now right.
  - intros b Hb Hb'. apply in_flat_map in Hb' as [y [Hy Hby]].
    assert (x = y) by (apply (Hdis x y b); auto; [now left | now right]).
    subst. contradiction.
Qed.

Lemma map_nth_seq {X Y : Type} (f : X -> Y) (l : list X) (d : X) :
  map (fun i => f (nth i l d)) (seq 0 (List.length l)) = map f l.
Proof.
  induction l as [|x l IH]; [reflexivity|].
  simpl. f_equal. rewrite <- seq_shift, map_map. exact IH.
Qed.

Section ClusterOrder.
Variable ids : list string.

Lemma partners_ascending (i : nat) :
  StronglySorted lt (i :: partners ids i).
Proof.
  constructor.
  - assert (Hrun : forall len start,
               StronglySorted lt (List.filter (same_id ids i) (seq start len))).
    { intros len. induction len as [|len IH]; intros start; simpl.
      - constructor.
      - destruct (same_id ids i start).
        + constructor; [apply IH|].
          apply List.Forall_forall. intros k Hk.
          apply filter_In in Hk as [Hk _]. apply in_seq in Hk. lia.
        + apply IH. }
    apply Hrun.
  - apply List.Forall_forall. intros k Hk. apply in_partners in Hk. lia.
Qed.

Lemma cluster_shape (i : nat) :
  cluster ids i = [] \/
  (cluster ids i = i :: partners ids i /\ first_occurrence ids i = true /\
   partners ids i <> []).
Proof.
  unfold cluster. destruct (first_occurrence ids i); [|now left].
  destruct (partners ids i); [now left | right]. repeat split. discriminate.
Qed.

Lemma cluster_NoDup (i : nat) : NoDup (cluster ids i).
Proof.
  destruct (cluster_shape i) as [->|[-> _]]; [constructor|].
  constructor.
  - rewrite in_partners. lia.
  - apply NoDup_filter, seq_NoDup.
Qed.

Lemma clusters_disjoint (x y b : nat) :
  In b (cluster ids x) -> In b (cluster ids y) -> x = y.
Proof.
  intros Hx Hy. apply in_cluster in Hx, Hy.
  destruct Hx as [Hfx [Hsx _]]. destruct Hy as [Hfy [Hsy _]].
  assert (Hxy : same_id ids x y = true).
  { apply (same_id_trans ids x b y Hsx). now rewrite same_id_sym. }
  destruct (Nat.lt_trichotomy x y) as [Hlt|[Heq|Hgt]]; [|exact Heq|].
  - assert (first_occurrence ids y = false).
    { apply first_occurrence_false. eauto. }
    congruence.
  - assert (first_occurrence ids x = false).
    { apply first_occurrence_false. exists y. now rewrite same_id_sym. }
    congruence.
Qed.

Lemma cluster_order_NoDup : NoDup (cluster_order ids).
Proof.
  unfold cluster_order. apply NoDup_flat_map_disjoint.
  - apply seq_NoDup.
  - intros. apply cluster_NoDup.
  - intros x y b _ _. apply clusters_disjoint.
Qed.

Lemma cluster_order_in (p : nat) :
  In p (cluster_order ids) <-> collides ids p.
Proof.
  unfold cluster_order, collides. rewrite in_flat_map. split.
  - intros [q [Hq Hin]]. apply in_cluster in Hin.
    destruct Hin as [Hf [Hs [Hle [Hp [k Hk]]]]].
    split; [exact Hp|].
    destruct (Nat.eq_dec q p) as [->|Hne].
    + apply in_partners in Hk. exists k.
      split; [lia|]. split; [lia|]. symmetry. now apply same_id_iff.
    + apply in_seq in Hq. exists q.
      split; [lia|]. split; [exact Hne|]. now apply same_id_iff.
  - intros [Hp [q [Hq [Hne Heq]]]].
    apply same_id_iff in Heq.
    destruct (first_occurrence ids p) eqn:Hf.
    + exists p. split; [apply in_seq; lia|].
      apply (cluster_intro ids p q Hf). apply in_partners.
      destruct (Nat.lt_trichotomy q p) as [Hlt|[->|Hgt]].
      * assert (first_occurrence ids p = false).
        { apply first_occurrence_false. eauto. }
        congruence.
      * contradiction.
      * split; [lia|]. split; [lia|]. now rewrite same_id_sym.
    + apply marked_before in Hf; [|exact Hp].
      apply in_flat_map in Hf as [q0 [Hq0 Hin]].
      exists q0. split; [|exact Hin].
      apply in_seq in Hq0. apply in_seq. lia.
Qed.

Lemma cluster_order_bound (p : nat) :
  In p (cluster_order ids) -> p < List.length ids.
Proof. intros Hp. now apply cluster_order_in in Hp as [Hp _]. Qed.

Lemma cluster_order_distinct : NoDup ids -> cluster_order ids = [].
Proof.
  intros Hnd. destruct (cluster_order ids) as [|p l] eqn:E; [reflexivity|].
  assert (Hp : In p (cluster_order ids)) by (rewrite E; now left).
  apply cluster_order_in in Hp as [Hp [q [Hq [Hne Heq]]]].
  exfalso. apply Hne. now apply (proj1 (NoDup_nth ids "") Hnd).
Qed.
End ClusterOrder.

(** ** Running [same_ids] *)

Lemma sorted_view_nth `{DvkFiles} (h : DvkHandler) (p : nat) :
  p < get_size h ->
  nth p (sorted_view h) Dvk_new = nth (nth p (sorted h) 0) (dvks h) Dvk_new.
Proof.
  intros Hp. unfold sorted_view.
  rewrite (nth_indep _ Dvk_new (nth 0 (dvks h) Dvk_new)).
  - apply (map_nth (fun j => nth j (dvks h) Dvk_new)).
  - now rewrite length_map.
Qed.

Lemma sorted_view_length `{DvkFiles} (h : DvkHandler) :
  List.length (sorted_view h) = get_size h.
Proof. unfold sorted_view. apply length_map. Qed.

Lemma sorted_view_reachable `{StringCompare} `{FileSystem} `{ListProcessing}
    `{DvkFiles} (h : DvkHandler) :
  reachable h -> sorted_view h = dvks h.
Proof.
  intros Hr. unfold sorted_view. rewrite (reachable_identity h Hr).
  etransitivity; [apply (map_nth_seq (fun d : Dvk => d) (dvks h) Dvk_new)|].
  apply map_id.
Qed.

Lemma same_ids_new `{StringCompare} `{FileSystem} `{ListProcessing} `{DvkFiles}
    (dirs : option (list (option string))) (st : store) :
  same_ids dirs None st
  = same_ids dirs (Some (fresh (dom st)))
             (<[fresh (dom st) := load_dvks DvkHandler_init dirs]> st).
Proof. reflexivity. Qed.

Lemma same_ids_run `{StringCompare} `{FileSystem} `{ListProcessing} `{DvkFiles}
    (dirs : option (list (option string))) (l : loc) (st : store)
    (h : DvkHandler) :
  st !! l = Some h -> index_inv h ->
  same_ids dirs (Some l) st
  = Ok (paths_at (sorted_view (sort_dvks h (Some "a") true))
                 (cluster_order
                    (map get_id (sorted_view (sort_dvks h (Some "a") true)))),
        <[l := sort_dvks h (Some "a") true]> st).
Proof.
  intros Hl Hinv. unfold same_ids, bind_handler. rewrite Hl.
  set (h' := sort_dvks h (Some "a") true).
  assert (Hinv' : index_inv h') by now apply index_inv_sort.
  rewrite (for_append_ok _ (fun i => get_id (nth i (sorted_view h') Dvk_new))).
  2:{ intros i Hi. apply in_seq in Hi.
      rewrite get_dvk_sorted_inside by (auto; lia).
      cbn [bind]. rewrite sorted_view_nth by lia. reflexivity. }
  cbn [bind].
  rewrite <- (sorted_view_length h') at 1.
  rewrite (map_nth_seq get_id).
  set (ids := map get_id (sorted_view h')).
  assert (Hlen : List.length ids = get_size h').
  { unfold ids. now rewrite length_map, sorted_view_length. }
  rewrite <- Hlen, find_identical_cluster_order.
  rewrite (for_append_ok _ (fun p => get_file (nth p (sorted_view h') Dvk_new))).
  2:{ intros p Hp. apply cluster_order_bound in Hp.
      rewrite get_dvk_sorted_inside by (auto; lia).
      cbn [bind]. rewrite sorted_view_nth by lia. reflexivity. }
  reflexivity.
Qed.

Lemma same_ids_run_any `{StringCompare} `{FileSystem} `{ListProcessing}
    `{DvkFiles} (dirs : option (list (option string))) (hopt : option loc)
    (st : store) (h : DvkHandler) :
  handler_given dirs hopt st h -> index_inv h ->
  exists st',
    same_ids dirs hopt st
    = Ok (paths_at (sorted_view (sort_dvks h (Some "a") true))
                   (cluster_order
                      (map get_id (sorted_view (sort_dvks h (Some "a") true)))),
          st').
Proof.
  intros Hg Hinv. destruct hopt as [l|]; simpl in Hg.
  - eexists. apply (same_ids_run dirs l st h Hg Hinv).
  - subst h. rewrite same_ids_new. eexists. apply same_ids_run.
    + apply lookup_insert_eq.
    + exact Hinv.
Qed.

Lemma paths_at_NoDup `{DvkFiles} (records : list Dvk) (positions : list nat) :
  NoDup positions ->
  (forall p, In p positions -> p < List.length records) ->
  NoDup (map get_file records) ->
  NoDup (paths_at records positions).
Proof.
  intros Hnd Hb Hfiles. unfold paths_at.
  induction Hnd as [|p l Hp Hnd IH]; simpl; constructor.
  - intros Hin. apply in_map_iff in Hin as [q [Heq Hq]].
    assert (Hpq : q = p).
    { apply (proj1 (NoDup_nth _ (get_file Dvk_new)) Hfiles).
      - rewrite length_map. apply Hb. now right.
      - rewrite length_map. apply Hb. now left.
      - now rewrite !(map_nth get_file). }
    subst. contradiction.
  - apply IH. intros q Hq. apply Hb. now right.
Qed.

(** C1: on the handler it is given (or loads), whose index invariant holds,
    [same_ids] sorts with mode ["a"] and grouping, reads the ids in sorted
    order and returns the file paths of the positions in cluster order:
    position [i] followed by its partners (the later positions with the same
    id, ascending) for each [i] that is the first with its id and has a
    partner, the clusters in ascending order of [i].  A position is in that
    list exactly when another position has its id, and when no two ids are
    equal the list is empty. *)
Theorem same_ids_reports_clusters `{StringCompare} `{FileSystem}
    `{ListProcessing} `{DvkFiles}
    (dirs : option (list (option string))) (hopt : option loc) (st : store)
    (h : DvkHandler) :
  handler_given dirs hopt st h -> index_inv h ->
  let records := sorted_view (sort_dvks h (Some "a") true) in
  let ids := map get_id records in
  (exists st',
     same_ids dirs hopt st = Ok (paths_at records (cluster_order ids), st')) /\
  (forall p, In p (cluster_order ids) <-> collides ids p) /\
  (forall i, cluster ids i = [] \/
             (cluster ids i = i :: partners ids i /\
              first_occurrence ids i = true /\
              StronglySorted lt (i :: partners ids i))) /\
  (NoDup ids -> exists st', same_ids dirs hopt st = Ok ([], st')).
Proof.
  intros Hg Hinv records ids.
  destruct (same_ids_run_any dirs hopt st h Hg Hinv) as [st' Hrun].
  fold records in Hrun. fold ids in Hrun.
  split; [eauto|]. split; [apply cluster_order_in|]. split.
  - intros i. destruct (cluster_shape ids i) as [E|[E [Hf _]]]; [now left|].
    right. split; [exact E|]. split; [exact Hf | apply partners_ascending].
  - intros Hnd. exists st'. rewrite Hrun.
    now rewrite (cluster_order_distinct ids Hnd).
Qed.

(** C10: the marking scan never appends a position twice, so every
    colliding position occurs exactly once among the marked ones; [same_ids]
    returns the file paths of the marked positions, and these paths are
    pairwise distinct when the loaded records have distinct files. *)
Theorem same_ids_marks_once `{StringCompare} `{FileSystem} `{ListProcessing}
    `{DvkFiles}
    (dirs : option (list (option string))) (hopt : option loc) (st : store)
    (h : DvkHandler) :
  handler_given dirs hopt st h -> index_inv h ->
  let records := sorted_view (sort_dvks h (Some "a") true) in
  let ids := map get_id records in
  let s_ids := find_identical ids (List.length ids) in
  NoDup s_ids /\
  (forall p, collides ids p -> count_occ Nat.eq_dec s_ids p = 1) /\
  (exists st', same_ids dirs hopt st = Ok (paths_at records s_ids, st')) /\
  (NoDup (map get_file records) -> NoDup (paths_at records s_ids)).
Proof.
  intros Hg Hinv records ids s_ids.
  destruct (same_ids_run_any dirs hopt st h Hg Hinv) as [st' Hrun].
  fold records in Hrun. fold ids in Hrun.
  assert (Hs : s_ids = cluster_order ids)
    by apply find_identical_cluster_order.
  assert (Hnd : NoDup s_ids) by (rewrite Hs; apply cluster_order_NoDup).
  split; [exact Hnd|]. split; [|split].
  - intros p Hp. apply (proj1 (NoDup_count_occ' Nat.eq_dec s_ids) Hnd).
    rewrite Hs. now apply cluster_order_in.
  - exists st'. now rewrite Hs.
  - intros Hfiles. apply paths_at_NoDup; [exact Hnd | | exact Hfiles].
    intros p Hp. rewrite Hs in Hp. apply cluster_order_bound in Hp.
    unfold ids in Hp. now rewrite length_map in Hp.
Qed.

(** C9: given a handler of the caller's, [same_ids] loads nothing and leaves
    that very handler sorted: afterwards the caller's reference holds
    [sort_dvks("a", True)] of the old state, every other object of the store
    is as before, [paths] and [sorted] are unchanged, the grouping flag is
    set, and [dvks] holds the same records in ascending alphabetic,
    artist-grouped order whatever their order was.  The comparators of the
    imported string module are assumed consistent. *)
Theorem same_ids_sorts_given_handler `{StringCompare} `{FileSystem}
    `{ListProcessing} `{DvkFiles}
    (dirs : option (list (option string))) (l : loc) (st : store)
    (h : DvkHandler) :
  consistent compare_strings -> consistent compare_alphanum ->
  st !! l = Some h -> index_inv h ->
  exists found st',
    same_ids dirs (Some l) st = Ok (found, st') /\
    st' !! l = Some (sort_dvks h (Some "a") true) /\
    (forall l', l' <> l -> st' !! l' = st !! l') /\
    paths (sort_dvks h (Some "a") true) = paths h /\
    sorted (sort_dvks h (Some "a") true) = sorted h /\
    group_artists (sort_dvks h (Some "a") true) = Some true /\
    Permutation (dvks (sort_dvks h (Some "a") true)) (dvks h) /\
    sorted_by (on_records (compare_alpha true))
              (dvks (sort_dvks h (Some "a") true)).
Proof.
  intros Hstr Hnum Hl Hinv.
  eexists. eexists. split; [apply (same_ids_run dirs l st h Hl Hinv)|].
  split; [apply lookup_insert_eq|].
  split; [intros l' Hne; apply lookup_insert_ne; congruence|].
  split; [apply sort_dvks_paths|].
  split; [apply sort_dvks_sorted|].
  split.
  { unfold sort_dvks. destruct (0 <? _)%nat; reflexivity. }
  split; [apply sort_dvks_perm|].
  destruct (Nat.eq_dec (get_size h) 0) as [Hz|Hnz].
  - assert (Hnil : dvks (sort_dvks h (Some "a") true) = []).
    { apply length_zero_iff_nil.
      rewrite (Permutation_length (sort_dvks_perm h (Some "a") true)).
      destruct Hinv as [Hlen _]. unfold get_size in Hz. lia. }
    rewrite Hnil. constructor.
  - apply (sort_dvks_sorted_by h "a" true Hstr Hnum). lia.
Qed.

(** ** The tie-break chains *)

(** C5: with grouping on, every comparator first compares the two artist
    lists, each joined by [list_to_string], with [compare_alphanum], and a
    non-zero answer is the comparator's answer.  With grouping off, or on an
    artist tie, [compare_time] answers with [compare_strings] on the times
    and, on a tie, with [compare_alphanum] on the titles; [compare_ratings]
    and [compare_views] answer -1 or 1 by their number and, on a tie, with
    [compare_alpha] (itself: titles, then times). *)
Theorem comparator_chains `{StringCompare} `{ListProcessing}
    (g : bool) (x y : Dvk) :
  let artists := compare_alphanum (list_to_string (get_artists x))
                                  (list_to_string (get_artists y)) in
  let titles := compare_alphanum (get_title x) (get_title y) in
  let times := compare_strings (get_time x) (get_time y) in
  compare_artists x y = artists /\
  (g = true -> artists <> 0%Z ->
   compare_alpha g (Some x) (Some y) = artists /\
   compare_time g (Some x) (Some y) = artists /\
   compare_ratings g (Some x) (Some y) = artists /\
   compare_views g (Some x) (Some y) = artists) /\
  (g = false \/ artists = 0%Z ->
   compare_alpha g (Some x) (Some y)
   = (if (titles =? 0)%Z then times else titles) /\
   compare_time g (Some x) (Some y)
   = (if (times =? 0)%Z then titles else times) /\
   compare_ratings g (Some x) (Some y)
   = (if (get_rating x <? get_rating y)%Z then (-1)%Z
      else if (get_rating y <? get_rating x)%Z then 1%Z
      else compare_alpha g (Some x) (Some y)) /\
   compare_views g (Some x) (Some y)
   = (if (get_views x <? get_views y)%Z then (-1)%Z
      else if (get_views y <? get_views x)%Z then 1%Z
      else compare_alpha g (Some x) (Some y))).
Proof.
  cbv zeta. split; [reflexivity|].
  unfold compare_alpha, compare_time, compare_ratings, compare_views,
    compare_artists.
  cbv zeta. split.
  - intros -> Hne. apply Z.eqb_neq in Hne.
    repeat split; repeat (rewrite Hne; cbv iota); reflexivity.
  - intros [->|Htie]; [|destruct g];
      rewrite ?Htie; change (0 =? 0)%Z with true; cbv iota;
      unfold compare_alpha, compare_artists; cbv zeta;
      rewrite ?Htie; change (0 =? 0)%Z with true; cbv iota;
      repeat split; reflexivity.
Qed.

(** ** The reference implementation meets the assumptions *)

Lemma lexical_compare_consistent : consistent Model.lexical_compare.
Proof. exact str_cmp_consistent. Qed.

Lemma chunk_cmp_consistent : consistent Model.chunk_cmp.
Proof.
  pose proof (consistent_on Model.run_value _ consistent_three_way) as Hd.
  pose proof (consistent_on (map Model.lower) _
                (lex_cmp_consistent _ char_cmp_consistent)) as Ht.
  cbv beta in Hd, Ht. split.
  - intros [x|x] [y|y]; simpl; try lia.
    + order_facts Hd x y x. lia.
    + order_facts Ht x y x. lia.
  - intros [x|x] [y|y] [z|z]; simpl; try lia.
    + order_facts Hd x y z. lia.
    + order_facts Ht x y z. lia.
Qed.

Lemma natural_compare_consistent : consistent Model.natural_compare.
Proof.
  apply (consistent_on (fun s => Model.chunks (list_ascii_of_string s))),
    lex_cmp_consistent, chunk_cmp_consistent.
Qed.

Lemma dedup_loop (l out : list Path) :
  NoDup out ->
  NoDup (fold_left
           (fun out p => if existsb (String.eqb p) out then out else out ++ [p])
           l out) /\
  forall p,
    In p (fold_left
            (fun out p => if existsb (String.eqb p) out then out else out ++ [p])
            l out)
    <-> In p out \/ In p l.
Proof.
  revert out. induction l as [|q l IH]; intros out Hnd; simpl.
  - split; [exact Hnd | intros p; tauto].
  - destruct (existsb (String.eqb q) out) eqn:E.
    + destruct (IH out Hnd) as [Hn Hi]. split; [exact Hn|].
      intros p. rewrite Hi.
      apply existsb_exists in E as [q' [Hq' Heq]].
      apply String.eqb_eq in Heq. subst q'.
      split; [tauto|]. intros [?|[<-|?]]; auto.
    + assert (Hq : ~ In q out).
      { intros Hin. apply not_true_iff_false in E. apply E.
        apply existsb_exists. exists q. split; [exact Hin|].
        apply String.eqb_refl. }
      assert (Hnd' : NoDup (out ++ [q])).
      { apply (Permutation_NoDup (l := q :: out)).
        - apply Permutation_cons_append.
        - now constructor. }
      destruct (IH (out ++ [q]) Hnd') as [Hn Hi]. split; [exact Hn|].
      intros p. rewrite Hi, in_app_iff. simpl. tauto.
Qed.

Lemma dedup_removes_duplicates : removes_duplicates Model.dedup.
Proof.
  intros l. destruct (dedup_loop l [] (NoDup_nil _)) as [Hn Hi].
  split; [exact Hn|]. intros p. unfold Model.dedup. rewrite Hi. simpl. tauto.
Qed.

(** ** The theorems at work on the test fixture *)

Section Fixture.
Local Existing Instance Model.string_compare.
Local Existing Instance Model.list_processing.
Local Existing Instance Model.dvk_files.
Local Existing Instance Model.file_system.

Lemma loaded_index_inv : index_inv Model.loaded.
Proof. apply index_inv_load. Qed.

Lemma caller_holds_loaded : Model.one_store !! Model.caller = Some Model.loaded.
Proof. apply lookup_singleton_eq. Qed.

(** The model comparator agrees with the examples of the specification. *)
Example natural_compare_examples :
  (Model.natural_compare "item2" "item10" < 0)%Z /\
  Model.natural_compare "Item" "item" = 0%Z /\
  Model.natural_compare "item2a" "item2" <> 0%Z.
Proof. vm_compute. repeat split; congruence. Qed.

(** The run that [test_identical_ids] asserts: three paths, [dvk1], [dvk3],
    [dvk4]. *)
Lemma same_ids_reports_clusters_witness :
  handler_given None (Some Model.caller) Model.one_store Model.loaded /\
  index_inv Model.loaded /\
  exists st',
    same_ids None (Some Model.caller) Model.one_store
    = Ok (["/finding/dvk1.dvk"; "/finding/sub/dvk3.dvk"; "/finding/dvk4.dvk"],
          st').
Proof.
  split; [exact caller_holds_loaded|]. split; [exact loaded_index_inv|].
  destruct (same_ids_reports_clusters None (Some Model.caller) Model.one_store
              Model.loaded caller_holds_loaded loaded_index_inv)
    as [[st' Hrun] _].
  exists st'. exact Hrun.
Defined.

Lemma sort_orders_records_witness :
  consistent compare_strings /\ consistent compare_alphanum /\
  0 < get_size Model.loaded /\
  sorted_by (on_records (specified_comparator (Some "r") false))
            (dvks (sort_dvks Model.loaded (Some "r") false)) /\
  Permutation (dvks (sort_dvks Model.loaded (Some "r") false))
              (dvks Model.loaded).
Proof.
  assert (Hsize : 0 < get_size Model.loaded) by (vm_compute; lia).
  split; [exact lexical_compare_consistent|].
  split; [exact natural_compare_consistent|].
  split; [exact Hsize|].
  exact (sort_orders_records Model.loaded (Some "r") false
           lexical_compare_consistent natural_compare_consistent Hsize).
Defined.

(** With the mode absent the loaded records stay in load order, [title1],
    [title4], [title2], [title3], which the alphabetic comparator does not
    accept as ascending. *)
Lemma sort_absent_mode_counterexample :
  consistent compare_strings /\ consistent compare_alphanum /\
  0 < get_size Model.loaded /\
  ~ sorted_by (on_records (specified_comparator None false))
              (dvks (sort_dvks Model.loaded None false)).
Proof.
  split; [exact lexical_compare_consistent|].
  split; [exact natural_compare_consistent|].
  split; [vm_compute; lia|].
  change (dvks (sort_dvks Model.loaded None false))
    with [Model.dvk1; Model.dvk4; Model.dvk2; Model.dvk3].
  intros Hs. apply StronglySorted_inv in Hs as [Hs _].
  apply StronglySorted_inv in Hs as [_ Hall].
  apply Forall_inv in Hall. vm_compute in Hall. now apply Hall.
Qed.

Lemma index_access_witness :
  index_inv Model.loaded /\
  get_dvk_sorted Model.loaded 7 = Ok Dvk_new /\
  get_dvk_direct Model.loaded (-1) = Ok Dvk_new /\
  (exists d, nth_error (dvks Model.loaded) 2 = Some d /\
             get_dvk_direct Model.loaded 2 = Ok d).
Proof.
  split; [exact loaded_index_inv|].
  split.
  { apply (index_access Model.loaded 7 loaded_index_inv).
    right. vm_compute. discriminate. }
  split.
  { apply (index_access Model.loaded (-1) loaded_index_inv).
    left. lia. }
  apply (index_access Model.loaded 2 loaded_index_inv).
  vm_compute. split; [discriminate | reflexivity].
Defined.

Lemma comparator_chains_witness :
  (true = true /\
   compare_alphanum (list_to_string (get_artists Model.zed))
                    (list_to_string (get_artists Model.amy)) <> 0%Z /\
   compare_alpha true (Some Model.zed) (Some Model.amy) = 1%Z) /\
  ((true = false \/
    compare_alphanum (list_to_string (get_artists Model.dvk1))
                     (list_to_string (get_artists Model.dvk3)) = 0%Z) /\
   compare_ratings true (Some Model.dvk1) (Some Model.dvk3)
   = compare_alpha true (Some Model.dvk1) (Some Model.dvk3)).
Proof.
  split.
  - assert (Hne : compare_alphanum (list_to_string (get_artists Model.zed))
                    (list_to_string (get_artists Model.amy)) <> 0%Z)
      by (vm_compute; discriminate).
    split; [reflexivity|]. split; [exact Hne|].
    destruct (comparator_chains true Model.zed Model.amy) as [_ [Hcut _]].
    destruct (Hcut eq_refl Hne) as [Halpha _]. rewrite Halpha. reflexivity.
  - assert (Htie : true = false \/
                   compare_alphanum (list_to_string (get_artists Model.dvk1))
                     (list_to_string (get_artists Model.dvk3)) = 0%Z)
      by (right; reflexivity).
    split; [exact Htie|].
    destruct (comparator_chains true Model.dvk1 Model.dvk3) as [_ [_ Hrest]].
    destruct (Hrest Htie) as [_ [_ [Hrat _]]]. exact Hrat.
Defined.

Lemma index_invariant_witness :
  index_inv Model.loaded /\
  index_inv (sort_dvks Model.loaded (Some "v") true) /\
  exists d, get_dvk_sorted (sort_dvks Model.loaded (Some "v") true) 3 = Ok d.
Proof.
  destruct index_invariant as [_ [Hload [_ [Hsort [_ Hget]]]]].
  assert (Hinv : index_inv Model.loaded) by apply Hload.
  split; [exact Hinv|]. split; [now apply Hsort|].
  apply Hget. now apply Hsort.
Defined.

Lemma sort_idempotent_witness :
  consistent compare_strings /\ consistent compare_alphanum /\
  sort_dvks (sort_dvks Model.loaded (Some "a") true) (Some "a") true
  = sort_dvks Model.loaded (Some "a") true.
Proof.
  split; [exact lexical_compare_consistent|].
  split; [exact natural_compare_consistent|].
  exact (sort_idempotent Model.loaded (Some "a") true
           lexical_compare_consistent natural_compare_consistent).
Defined.

Lemma get_directories_spec_witness :
  removes_duplicates clean_list /\
  NoDup (get_directories (Some [Some "finding"; None; Some ""; Some "finding"]))
  /\ In "/finding/sub"
        (get_directories (Some [Some "finding"; None; Some ""; Some "finding"]))
  /\ ~ In "/finding/sub2"
         (get_directories (Some [Some "finding"; None; Some ""; Some "finding"])).
Proof.
  split; [exact dedup_removes_duplicates|].
  destruct (@get_directories_spec Model.file_system Model.list_processing
              dedup_removes_duplicates)
    as [_ [_ Hspec]].
  destruct (Hspec [Some "finding"; None; Some ""; Some "finding"])
    as [Hnd [_ [Hin _]]].
  split; [exact Hnd|]. split.
  - apply Hin. split.
    + exists "finding". split; [now left|]. split; [discriminate|].
      vm_compute. tauto.
    + exists "dvk2.dvk". split; [vm_compute; tauto | reflexivity].
  - intros Hsub. apply Hin in Hsub as [_ [file [Hfile Hext]]].
    vm_compute in Hfile. destruct Hfile as [<-|[]]. discriminate.
Defined.

(** Under [/r], the record directories [/r/a/x] and [/r/a-b] come out in
    that order, the part [a] being a prefix of the part [a-b]; as strings
    [/r/a-b] is the lesser, its [-] sorting before the [/] of [/r/a/x]. *)
Lemma get_directories_order_counterexample :
  removes_duplicates (@clean_list Model.list_processing) /\
  @get_directories Model.hyphen_tree Model.list_processing (Some [Some "/r"])
  = ["/r/a/x"; "/r/a-b"] /\
  ~ ascending lexical_lt
      (@get_directories Model.hyphen_tree Model.list_processing
         (Some [Some "/r"])).
Proof.
  split; [exact dedup_removes_duplicates|].
  split; [reflexivity|].
  change (@get_directories Model.hyphen_tree Model.list_processing
            (Some [Some "/r"]))
    with ["/r/a/x"; "/r/a-b"].
  intros Hs. apply StronglySorted_inv in Hs as [_ Hall].
  apply Forall_inv in Hall. vm_compute in Hall. discriminate.
Qed.

Lemma same_ids_sorts_given_handler_witness :
  consistent compare_strings /\ consistent compare_alphanum /\
  Model.one_store !! Model.caller = Some Model.loaded /\
  index_inv Model.loaded /\
  exists found st',
    same_ids None (Some Model.caller) Model.one_store = Ok (found, st') /\
    st' !! Model.caller = Some (sort_dvks Model.loaded (Some "a") true) /\
    map get_title (dvks (sort_dvks Model.loaded (Some "a") true))
    = ["title1"; "title2"; "title3"; "title4"].
Proof.
  split; [exact lexical_compare_consistent|].
  split; [exact natural_compare_consistent|].
  split; [exact caller_holds_loaded|]. split; [exact loaded_index_inv|].
  destruct (@same_ids_sorts_given_handler Model.string_compare
              Model.file_system Model.list_processing Model.dvk_files
              None Model.caller Model.one_store
              Model.loaded lexical_compare_consistent
              natural_compare_consistent caller_holds_loaded loaded_index_inv)
    as [found [st' [Hrun [Hl _]]]].
  exists found. exists st'. split; [exact Hrun|]. split; [exact Hl|].
  reflexivity.
Defined.

Lemma same_ids_marks_once_witness :
  handler_given None (Some Model.caller) Model.one_store Model.loaded /\
  index_inv Model.loaded /\
  NoDup (find_identical ["id1"; "id2"; "id1"; "id1"] 4) /\
  count_occ Nat.eq_dec (find_identical ["id1"; "id2"; "id1"; "id1"] 4) 2 = 1.
Proof.
  split; [exact caller_holds_loaded|]. split; [exact loaded_index_inv|].
  destruct (same_ids_marks_once None (Some Model.caller) Model.one_store
              Model.loaded caller_holds_loaded loaded_index_inv)
    as [Hnd [Hcount _]].
  split; [exact Hnd|].
  apply Hcount. split; [vm_compute; lia|].
  exists 0. split; [vm_compute; lia|]. split; [discriminate | reflexivity].
Defined.
End Fixture.

(* ===================================================================== *)
(** * Part III: further properties of the handler and the finder *)
(* ===================================================================== *)

(** ** The sorted index on reachable handlers *)

(** X1: [sort_dvks] reorders [dvks] itself and nothing ever permutes
    [sorted], so on every handler that the public operations produce the
    two accessors agree at every index. *)
Theorem sorted_index_is_direct `{StringCompare} `{FileSystem} `{ListProcessing}
    `{DvkFiles} (h : DvkHandler) (i : Z) :
  reachable h -> get_dvk_sorted h i = get_dvk_direct h i.
Proof.
  intros Hr.
  pose proof (reachable_index_inv h Hr) as Hinv.
  pose proof (reachable_identity h Hr) as Hid.
  destruct (Z_lt_ge_dec i 0) as [Hneg|Hpos].
  - now rewrite get_dvk_sorted_outside, get_dvk_direct_outside by lia.
  - destruct (Z_lt_ge_dec i (Z.of_nat (get_size h))) as [Hlt|Hge].
    + assert (Hn : Z.to_nat i < get_size h) by lia.
      assert (Hlen : get_size h = List.length (dvks h)) by apply Hinv.
      replace i with (Z.of_nat (Z.to_nat i)) by lia.
      rewrite get_dvk_sorted_inside, get_dvk_direct_inside by (auto; lia).
      rewrite Hid, seq_nth by lia. reflexivity.
    + now rewrite get_dvk_sorted_outside, get_dvk_direct_outside by lia.
Qed.

(** ** The comparators as orders *)

Lemma consistent_refl {A : Type} (c : A -> A -> Z) (x : A) :
  consistent c -> c x x = 0%Z.
Proof. intros Hc. order_facts Hc x x x. lia. Qed.

(** X2: when the two comparators of the string module are consistent, each
    comparator [sort_dvks] can select is a consistent three-way comparison of
    records (swapping the arguments swaps the sign, "not after" is
    transitive), answers 0 on a record against itself, and answers 0 as
    soon as an argument is [None]. *)
Theorem comparators_total_preorder `{StringCompare} `{ListProcessing}
    (t : string) (g : bool) :
  consistent compare_strings -> consistent compare_alphanum ->
  consistent (on_records (select_comparator t g)) /\
  (forall x, select_comparator t g (Some x) (Some x) = 0%Z) /\
  (forall y, select_comparator t g None y = 0%Z /\
             select_comparator t g y None = 0%Z).
Proof.
  intros Hstr Hnum.
  pose proof (select_comparator_consistent Hstr Hnum t g) as Hc.
  split; [exact Hc|]. split.
  - intros x. apply (consistent_refl _ x Hc).
  - intros y. unfold select_comparator.
    destruct (String.eqb t "t"); [|destruct (String.eqb t "r");
                                    [|destruct (String.eqb t "v")]];
      destruct y; split; reflexivity.
Qed.

(** ** What a sorted handler looks like *)

Lemma StronglySorted_nth {A : Type} (R : A -> A -> Prop) (l : list A) (d : A)
    (i k : nat) :
  StronglySorted R l -> i < k -> k < List.length l ->
  R (nth i l d) (nth k l d).
Proof.
  intros Hs. revert i k. induction Hs as [|x l Hs IH Hall]; intros i k Hik Hk.
  - simpl in Hk. lia.
  - destruct k as [|k]; [lia|]. simpl in Hk. destruct i as [|i]; simpl.
    + rewrite List.Forall_forall in Hall. apply Hall, nth_In. lia.
    + apply IH; lia.
Qed.

Lemma lex2_first_le {A : Type} (c1 c2 : A -> A -> Z) (x y : A) :
  (lex2 c1 c2 x y <= 0)%Z -> (c1 x y <= 0)%Z.
Proof. unfold lex2. destruct (Z.eqb_spec (c1 x y) 0); lia. Qed.

Lemma lex2_second_le {A : Type} (c1 c2 : A -> A -> Z) (x y : A) :
  c1 x y = 0%Z -> (lex2 c1 c2 x y <= 0)%Z -> (c2 x y <= 0)%Z.
Proof. unfold lex2. intros ->. simpl. auto. Qed.

Lemma selected_by_artists `{StringCompare} `{ListProcessing}
    (t : string) (g : bool) (x y : Dvk) :
  (on_records (select_comparator t g) x y <= 0)%Z -> (by_artists g x y <= 0)%Z.
Proof.
  unfold on_records, select_comparator.
  destruct (String.eqb t "t"); [|destruct (String.eqb t "r");
                                  [|destruct (String.eqb t "v")]];
    rewrite ?compare_time_chain, ?compare_ratings_chain, ?compare_views_chain,
      ?compare_alpha_chain;
    apply lex2_first_le.
Qed.

Lemma by_artists_tie `{StringCompare} `{ListProcessing} (g : bool) (x y : Dvk) :
  g = false \/ compare_artists x y = 0%Z -> by_artists g x y = 0%Z.
Proof. unfold by_artists. intros [->|Ht]; [reflexivity|]. now destruct g. Qed.

Lemma sorted_pair `{StringCompare} `{ListProcessing}
    (h : DvkHandler) (t : string) (g : bool) (d : Dvk) (i k : nat) :
  consistent compare_strings -> consistent compare_alphanum ->
  0 < get_size h ->
  i < k -> k < List.length (dvks (sort_dvks h (Some t) g)) ->
  (on_records (select_comparator t g)
     (nth i (dvks (sort_dvks h (Some t) g)) d)
     (nth k (dvks (sort_dvks h (Some t) g)) d) <= 0)%Z.
Proof.
  intros Hstr Hnum Hs Hik Hk.
  apply (StronglySorted_nth (fun x y =>
           (on_records (select_comparator t g) x y <= 0)%Z)); auto.
  now apply sort_dvks_sorted_by.
Qed.





(** X7: after [sort_dvks] with a mode other than ["t"], ["r"] and ["v"] the
    titles never decrease under [compare_alphanum] from one position to a
    later one, and where two titles tie the times do not decrease under
    [compare_strings]; over the whole list when grouping is off and within
    one artist when it is on.  Assumes the comparators of the string module
    consistent. *)
Theorem alpha_sort_ascending `{StringCompare} `{ListProcessing}
    (h : DvkHandler) (t : string) (g : bool) (d : Dvk) (i k : nat) :
  consistent compare_strings -> consistent compare_alphanum ->
  t <> "t" -> t <> "r" -> t <> "v" ->
  0 < get_size h ->
  i < k -> k < List.length (dvks (sort_dvks h (Some t) g)) ->
  g = false \/
  compare_artists (nth i (dvks (sort_dvks h (Some t) g)) d)
                  (nth k (dvks (sort_dvks h (Some t) g)) d) = 0%Z ->
  (by_title (nth i (dvks (sort_dvks h (Some t) g)) d)
            (nth k (dvks (sort_dvks h (Some t) g)) d) <= 0)%Z /\
  (by_title (nth i (dvks (sort_dvks h (Some t) g)) d)
            (nth k (dvks (sort_dvks h (Some t) g)) d) = 0%Z ->
   (by_time (nth i (dvks (sort_dvks h (Some t) g)) d)
            (nth k (dvks (sort_dvks h (Some t) g)) d) <= 0)%Z).
Proof.
  intros Hstr Hnum Ht Hr Hv Hs Hik Hk Htie.
  pose proof (sorted_pair h t g d i k Hstr Hnum Hs Hik Hk) as Hle.
  assert (Hsel : select_comparator t = compare_alpha).
  { unfold select_comparator.
    destruct (String.eqb_spec t "t"); [contradiction|].
    destruct (String.eqb_spec t "r"); [contradiction|].
    destruct (String.eqb_spec t "v"); [contradiction|]. reflexivity. }
  rewrite Hsel in Hle.
  unfold on_records in Hle. rewrite compare_alpha_chain in Hle.
  apply lex2_second_le in Hle; [|now apply by_artists_tie].
  split.
  - now apply lex2_first_le in Hle.
  - intros Hti. now apply lex2_second_le in Hle.
Qed.

(** ** Stability and uniqueness of the sort *)

Section SortOrder.
Context {A : Type} (c : A -> A -> Z).
Hypothesis c_consistent : consistent c.

Lemma insort_ties (x p : A) (acc : list A) :
  sorted_by c acc ->
  List.filter (fun y => (c x y =? 0)%Z) (insort (cmp_to_key c) p acc)
  = List.filter (fun y => (c x y =? 0)%Z) acc
    ++ List.filter (fun y => (c x y =? 0)%Z) [p].
Proof.
  unfold sorted_by. induction 1 as [|y acc Hs IH Hall]; [reflexivity|].
  simpl. unfold cmp_to_key at 1.
  destruct (Z.ltb_spec (c p y) 0) as [Hlt|Hge].
  - simpl. destruct (Z.eqb_spec (c x p) 0) as [Hxp|Hxp].
    + assert (Hnone : forall z, In z (y :: acc) -> (c x z =? 0)%Z = false).
      { intros z Hz. apply Z.eqb_neq.
        assert (Hyz : (c y z <= 0)%Z).
        { destruct Hz as [<-|Hz].
          - rewrite (consistent_refl c y c_consistent). lia.
          - rewrite List.Forall_forall in Hall. now apply Hall. }
        order_facts c_consistent p y z. order_facts c_consistent x p z.
        lia. }
      rewrite (Hnone y (or_introl eq_refl)).
      assert (Hnil : List.filter (fun z => (c x z =? 0)%Z) acc = []).
      { clear IH Hs Hall. induction acc as [|z acc IHa]; [reflexivity|].
        simpl. rewrite (Hnone z) by (right; now left).
        apply IHa. intros w [<-|Hw]; apply Hnone; [now left | right; now right]. }
      rewrite Hnil. reflexivity.
    + rewrite app_nil_r. reflexivity.
  - simpl. rewrite IH. simpl.
    destruct (c x y =? 0)%Z; reflexivity.
Qed.

Lemma fold_insort_ties (x : A) (l acc : list A) :
  sorted_by c acc ->
  List.filter (fun y => (c x y =? 0)%Z)
              (fold_left (fun acc p => insort (cmp_to_key c) p acc) l acc)
  = List.filter (fun y => (c x y =? 0)%Z) acc
    ++ List.filter (fun y => (c x y =? 0)%Z) l.
Proof.
  revert acc. induction l as [|p l IH]; intros acc Hs; simpl.
  - now rewrite app_nil_r.
  - rewrite IH.
    + rewrite insort_ties by exact Hs. simpl.
      destruct (c x p =? 0)%Z; now rewrite <- app_assoc.
    + apply key_sorted_sorted_by; [exact c_consistent|].
      apply insort_sorted; [now apply consistent_strict_weak|].
      now apply sorted_by_key_sorted.
Qed.

Lemma py_sorted_stable (x : A) (l : list A) :
  List.filter (fun y => (c x y =? 0)%Z) (py_sorted (cmp_to_key c) l)
  = List.filter (fun y => (c x y =? 0)%Z) l.
Proof.
  unfold py_sorted. rewrite fold_insort_ties; [reflexivity|]. constructor.
Qed.

Lemma sorted_by_unique (l1 l2 : list A) :
  sorted_by c l1 -> sorted_by c l2 -> Permutation l1 l2 ->
  (forall x y, In x l1 -> In y l1 -> c x y = 0%Z -> x = y) ->
  l1 = l2.
Proof.
  unfold sorted_by. intros Hs1. revert l2.
  induction Hs1 as [|a l1 Hs1 IH Hall1]; intros l2 Hs2 Hp Hinj.
  - now apply Permutation_nil in Hp.
  - destruct Hs2 as [|b l2 Hs2 Hall2].
    + symmetry in Hp. now apply Permutation_nil in Hp.
    + assert (Hab : a = b).
      { assert (Ha : In a (b :: l2))
          by (apply (Permutation_in _ Hp); now left).
        assert (Hb : In b (a :: l1))
          by (apply (Permutation_in _ (Permutation_sym Hp)); now left).
        destruct Ha as [Ha|Ha]; [now subst|].
        destruct Hb as [Hb|Hb]; [now subst|].
        rewrite List.Forall_forall in Hall1, Hall2.
        pose proof (Hall1 b Hb). pose proof (Hall2 a Ha).
        apply Hinj; [now left | now right |].
        order_facts c_consistent a b a. lia. }
      subst b. f_equal. apply IH; [exact Hs2 | |].
      * now apply Permutation_cons_inv in Hp.
      * intros x y Hx Hy. apply Hinj; now right.
Qed.
End SortOrder.


(** X9: when no two different records tie under the selected comparator,
    the order [sort_dvks] leaves depends on the records only, not on the
    order they were in: two handlers holding the same records in any two
    orders end with the same [dvks].  Assumes the comparators of the string
    module consistent. *)
Theorem sort_forgets_order `{StringCompare} `{ListProcessing}
    (h h' : DvkHandler) (t : string) (g : bool) :
  consistent compare_strings -> consistent compare_alphanum ->
  0 < get_size h -> 0 < get_size h' ->
  Permutation (dvks h) (dvks h') ->
  (forall x y, In x (dvks h) -> In y (dvks h) ->
               on_records (select_comparator t g) x y = 0%Z -> x = y) ->
  dvks (sort_dvks h (Some t) g) = dvks (sort_dvks h' (Some t) g).
Proof.
  intros Hstr Hnum Hs Hs' Hp Hinj.
  pose proof (select_comparator_consistent Hstr Hnum t g) as Hc.
  apply (sorted_by_unique _ Hc).
  - now apply sort_dvks_sorted_by.
  - now apply sort_dvks_sorted_by.
  - rewrite (sort_dvks_perm h), (sort_dvks_perm h'). exact Hp.
  - intros x y Hx Hy. apply Hinj.
    + now apply (Permutation_in _ (sort_dvks_perm h (Some t) g)).
    + now apply (Permutation_in _ (sort_dvks_perm h (Some t) g)).
Qed.

(** ** The scanner and the order of the roots *)

Lemma lex_cmp_zero {A : Type} (c : A -> A -> Z) (l1 l2 : list A) :
  (forall x y, c x y = 0%Z -> x = y) -> lex_cmp c l1 l2 = 0%Z -> l1 = l2.
Proof.
  intros Hc. revert l2. induction l1 as [|x l1 IH]; intros [|y l2]; simpl;
    try discriminate; [reflexivity|].
  destruct (Z.eqb_spec (c x y) 0) as [E|E]; [|contradiction].
  intros Hl. f_equal; auto.
Qed.

Lemma char_cmp_zero (a b : ascii) : char_cmp a b = 0%Z -> a = b.
Proof.
  unfold char_cmp, three_way. split_tests; try discriminate. intros _.
  rewrite <- (ascii_N_embedding a), <- (ascii_N_embedding b).
  f_equal. lia.
Qed.

Lemma walked_from_same_roots `{FileSystem} (strs strs' : list (option string))
    (dir : Path) :
  (forall s, s <> "" -> In (Some s) strs -> In (Some s) strs') ->
  walked_from strs dir -> walked_from strs' dir.
Proof. intros Hsub [s [Hs [Hne Hw]]]. exists s. auto. Qed.

(** X10: the result of [get_directories] depends only on which usable roots
    occur in the input, not on their order or on repetitions, provided
    [clean_list] removes duplicates and nothing else and the walk spells
    each directory in one way (two walked paths with the same parts are the
    same string). *)
Theorem get_directories_roots_as_set `{FileSystem} `{ListProcessing}
    (strs strs' : list (option string)) :
  removes_duplicates clean_list ->
  (forall s, s <> "" -> In (Some s) strs <-> In (Some s) strs') ->
  (forall p q, walked_from strs p -> walked_from strs q ->
               parts p = parts q -> p = q) ->
  get_directories (Some strs) = get_directories (Some strs').
Proof.
  intros Hclean Hroots Hspell.
  assert (Hin : forall l dir,
             In dir (get_directories (Some l))
             <-> walked_from l dir /\ holds_dvk_file dir).
  { intros l dir. unfold get_directories.
    rewrite <- scan_root_loop_in.
    etransitivity; [|apply (proj2 (Hclean (fold_left scan_root l [])))].
    split; apply Permutation_in; [|symmetry]; apply py_sorted_perm. }
  assert (Hnd : forall l, NoDup (get_directories (Some l))).
  { intros l. unfold get_directories.
    apply (Permutation_NoDup (l := clean_list (fold_left scan_root l []))).
    - symmetry. apply py_sorted_perm.
    - apply Hclean. }
  set (c := fun p q : Path => lex_cmp (lex_cmp char_cmp) (parts p) (parts q)).
  assert (Hc : consistent c).
  { apply (consistent_on parts), lex_cmp_consistent, lex_cmp_consistent,
      char_cmp_consistent. }
  assert (Hsorted : forall l, sorted_by c (get_directories (Some l))).
  { intros l. apply key_sorted_sorted_by; [exact Hc|].
    unfold get_directories.
    apply (py_sorted_sorted path_lt path_lt_strict_weak). }
  apply (sorted_by_unique c Hc); auto.
  - apply NoDup_Permutation; auto.
    intros dir. rewrite !Hin. split; intros [Hw Hd]; split; auto.
    + apply (walked_from_same_roots strs strs'); auto.
      intros s Hne. apply Hroots, Hne.
    + apply (walked_from_same_roots strs' strs); auto.
      intros s Hne. apply Hroots, Hne.
  - intros p q Hp Hq Hz. apply Hin in Hp as [Hp _]. apply Hin in Hq as [Hq _].
    apply Hspell; auto. unfold c in Hz.
    apply (lex_cmp_zero (lex_cmp char_cmp)); [|exact Hz].
    intros a b. apply lex_cmp_zero, char_cmp_zero.
Qed.

(** ** More on [same_ids] *)

Lemma flat_map_never_single {X Y : Type} (f : X -> list Y) (l : list X) :
  (forall x, List.length (f x) <> 1) -> List.length (flat_map f l) <> 1.
Proof.
  intros Hf.
  assert (Hlen : forall l', List.length (flat_map f l') = 0 \/
                            2 <= List.length (flat_map f l')).
  { induction l' as [|x l' IH]; [now left|].
    simpl. rewrite length_app. specialize (Hf x). lia. }
  destruct (Hlen l); lia.
Qed.

Lemma cluster_order_never_single (ids : list string) :
  List.length (cluster_order ids) <> 1.
Proof.
  apply flat_map_never_single. intros i.
  destruct (cluster_shape ids i) as [->|[-> [_ Hne]]]; [discriminate|].
  destruct (partners ids i); [contradiction | discriminate].
Qed.

Lemma collides_partner (ids : list string) (p : nat) :
  collides ids p ->
  exists q, collides ids q /\ q <> p /\ nth q ids "" = nth p ids "".
Proof.
  intros [Hp [q [Hq [Hne Heq]]]]. exists q. split; [|auto].
  split; [exact Hq|]. exists p. auto.
Qed.

(** X11: the report of [same_ids] never consists of a single path, and
    every reported position comes with another reported position whose
    record has the same id. *)
Theorem same_ids_report_shape `{StringCompare} `{FileSystem} `{ListProcessing}
    `{DvkFiles}
    (dirs : option (list (option string))) (hopt : option loc) (st : store)
    (h : DvkHandler) :
  handler_given dirs hopt st h -> index_inv h ->
  let records := sorted_view (sort_dvks h (Some "a") true) in
  let ids := map get_id records in
  let s_ids := find_identical ids (List.length ids) in
  exists st',
    same_ids dirs hopt st = Ok (paths_at records s_ids, st') /\
    List.length (paths_at records s_ids) <> 1 /\
    forall p, In p s_ids ->
      exists q, In q s_ids /\ q <> p /\
                get_id (nth q records Dvk_new) = get_id (nth p records Dvk_new).
Proof.
  intros Hg Hinv records ids s_ids.
  destruct (same_ids_run_any dirs hopt st h Hg Hinv) as [st' Hrun].
  fold records in Hrun. fold ids in Hrun.
  assert (Hs : s_ids = cluster_order ids)
    by apply find_identical_cluster_order.
  exists st'. rewrite Hs. split; [exact Hrun|]. split.
  - unfold paths_at. rewrite length_map. apply cluster_order_never_single.
  - intros p Hp. apply cluster_order_in in Hp.
    assert (Hpb : p < List.length ids) by apply Hp.
    apply collides_partner in Hp.
    destruct Hp as [q [Hq [Hne Heq]]]. exists q.
    assert (Hqb : q < List.length ids) by apply Hq.
    split; [now apply cluster_order_in|]. split; [exact Hne|].
    rewrite (nth_indep ids "" (get_id Dvk_new) Hqb) in Heq.
    rewrite (nth_indep ids "" (get_id Dvk_new) Hpb) in Heq.
    unfold ids in Heq. now rewrite !(map_nth get_id) in Heq.
Qed.

Lemma sort_dvks_twice `{StringCompare} `{ListProcessing}
    (h : DvkHandler) (t : string) (g : bool) :
  consistent compare_strings -> consistent compare_alphanum ->
  sort_dvks (sort_dvks h (Some t) g) (Some t) g = sort_dvks h (Some t) g.
Proof.
  intros Hstr Hnum.
  pose proof (consistent_strict_weak _
                (select_comparator_consistent Hstr Hnum t g)) as Hc.
  unfold sort_dvks, get_size. destruct h as [ds ss ps ga]. simpl.
  destruct (0 <? List.length ss)%nat eqn:Hsize; simpl; rewrite Hsize.
  - unfold set_dvks. simpl. now rewrite (py_sorted_idempotent _ Hc).
  - reflexivity.
Qed.

(** X12: running [same_ids] a second time on the same handler gives the
    same report and leaves the store as the first run left it, whatever the
    directory argument.  Assumes the comparators of the string module
    consistent. *)
Theorem same_ids_twice `{StringCompare} `{FileSystem} `{ListProcessing}
    `{DvkFiles}
    (dirs dirs' : option (list (option string))) (l : loc) (st : store)
    (h : DvkHandler) :
  consistent compare_strings -> consistent compare_alphanum ->
  st !! l = Some h -> index_inv h ->
  exists found st',
    same_ids dirs (Some l) st = Ok (found, st') /\
    same_ids dirs' (Some l) st' = Ok (found, st').
Proof.
  intros Hstr Hnum Hl Hinv.
  eexists. eexists. split; [apply (same_ids_run dirs l st h Hl Hinv)|].
  rewrite (same_ids_run dirs' l _ (sort_dvks h (Some "a") true)).
  - rewrite (sort_dvks_twice h "a" true Hstr Hnum).
    now rewrite insert_insert_eq.
  - apply lookup_insert_eq.
  - now apply index_inv_sort.
Qed.

(** X13: called without a handler, [same_ids] works on a new handler at a
    location the store did not use: every handler the caller held is left
    as it was, the new one holds the sorted load of the directories, and
    when the scan finds no record directory the report is empty. *)
Theorem same_ids_without_handler `{StringCompare} `{FileSystem}
    `{ListProcessing} `{DvkFiles}
    (dirs : option (list (option string))) (st : store) :
  exists found st',
    same_ids dirs None st = Ok (found, st') /\
    st !! fresh (dom st) = None /\
    st' !! fresh (dom st)
    = Some (sort_dvks (load_dvks DvkHandler_init dirs) (Some "a") true) /\
    (forall l h, st !! l = Some h -> st' !! l = Some h) /\
    (get_directories dirs = [] -> found = []).
Proof.
  assert (Hfresh : st !! fresh (dom st) = None).
  { apply not_elem_of_dom, is_fresh. }
  eexists. eexists. split.
  { rewrite same_ids_new. apply same_ids_run.
    - apply lookup_insert_eq.
    - apply index_inv_load. }
  split; [exact Hfresh|]. split; [apply lookup_insert_eq|]. split.
  - intros l h Hl.
    assert (Hne : fresh (dom st) <> l) by congruence.
    now rewrite !lookup_insert_ne by exact Hne.
  - intros Hnone.
    assert (Hdvks : dvks (sort_dvks (load_dvks DvkHandler_init dirs)
                            (Some "a") true) = []).
    { apply length_zero_iff_nil.
      rewrite (Permutation_length (sort_dvks_perm _ _ _)).
      rewrite load_dvks_state, Hnone. reflexivity. }
    assert (Hsorted : sorted (sort_dvks (load_dvks DvkHandler_init dirs)
                                (Some "a") true) = []).
    { rewrite sort_dvks_sorted, load_dvks_state, Hnone. reflexivity. }
    unfold sorted_view. rewrite Hsorted. reflexivity.
Qed.

(** ** rename_files *)


(* ===================================================================== *)
(** * Part IV: the page builder *)
(* ===================================================================== *)

(** ** Strings *)

Lemma string_app_assoc (a b c : string) :
  ((a ++ b) ++ c)%string = (a ++ b ++ c)%string.
Proof.
  induction a as [|x a IH]; [reflexivity|].
  change (String x ((a ++ b) ++ c) = String x (a ++ b ++ c))%string.
  now f_equal.
Qed.

Lemma string_app_nil_r (a : string) : (a ++ "")%string = a.
Proof.
  induction a as [|x a IH]; [reflexivity|].
  change (String x (a ++ "") = String x a)%string. now f_equal.
Qed.

(** ** list_to_lines *)

(** Every item preceded by a line break. *)
Lemma lines_loop (lst l pre : list string) (acc : string) :
  lst = pre ++ l -> pre <> [] ->
  fold_left
    (fun lines i =>
       ((if (0 <? i)%nat then (lines ++ Html.newline)%string else lines)
          ++ nth i lst "")%string)
    (seq (List.length pre) (List.length l)) acc
  = (acc ++ fold_right (fun x r => (Html.newline ++ x ++ r)%string) "" l)%string.
Proof.
  revert pre acc. induction l as [|x l IH]; intros pre acc Hlst Hpre; simpl.
  - now rewrite string_app_nil_r.
  - assert (Hk : (0 <? List.length pre)%nat = true).
    { apply Nat.ltb_lt. destruct pre; [contradiction | simpl; lia]. }
    rewrite Hk.
    assert (Hx : nth (List.length pre) lst "" = x).
    { rewrite Hlst, app_nth2, Nat.sub_diag by lia. reflexivity. }
    rewrite Hx.
    replace (S (List.length pre)) with (List.length (pre ++ [x]))
      by (rewrite length_app; simpl; lia).
    rewrite IH.
    + now rewrite !string_app_assoc.
    + rewrite Hlst, <- app_assoc. reflexivity.
    + destruct pre; discriminate.
Qed.

Lemma concat_breaks (sep x : string) (l : list string) :
  String.concat sep (x :: l)
  = (x ++ fold_right (fun y r => (sep ++ y ++ r)%string) "" l)%string.
Proof.
  revert x. induction l as [|y l IH]; intros x.
  - simpl. now rewrite string_app_nil_r.
  - change (String.concat sep (x :: y :: l))
      with (x ++ sep ++ String.concat sep (y :: l))%string.
    rewrite IH. reflexivity.
Qed.

Lemma list_to_lines_concat (l : list string) :
  Html.list_to_lines (Some l) = String.concat Html.newline l.
Proof.
  destruct l as [|x l]; [reflexivity|].
  rewrite concat_breaks. unfold Html.list_to_lines.
  change (seq 0 (List.length (x :: l))) with (0 :: seq 1 (List.length l)).
  cbn [fold_left Nat.ltb Nat.leb nth]. simpl append at 2.
  apply (lines_loop (x :: l) l [x] x); [reflexivity | discriminate].
Qed.

(** X15: [list_to_lines] puts one line break between consecutive items and
    none before the first or after the last: it is the join of the items on
    the line break, the empty string for [None] and for the empty list, and
    on two lists that both have items the lines of the first, a break, and
    the lines of the second. *)
Theorem list_to_lines_joins (l : list string) :
  Html.list_to_lines None = "" /\
  Html.list_to_lines (Some l) = String.concat Html.newline l /\
  forall x y l1 l2,
    Html.list_to_lines (Some ((l1 ++ [x]) ++ y :: l2))
    = (Html.list_to_lines (Some (l1 ++ [x])%list) ++ Html.newline
         ++ Html.list_to_lines (Some (y :: l2)%list))%string.
Proof.
  split; [reflexivity|]. split; [apply list_to_lines_concat|].
  intros x y l1 l2. rewrite !list_to_lines_concat.
  induction l1 as [|z l1 IH].
  - reflexivity.
  - change (String.concat Html.newline (((z :: l1) ++ [x]) ++ y :: l2))
      with (String.concat Html.newline (z :: ((l1 ++ [x]) ++ y :: l2))).
    change (String.concat Html.newline ((z :: l1) ++ [x]))
      with (String.concat Html.newline (z :: (l1 ++ [x]))).
    destruct ((l1 ++ [x]) ++ y :: l2) as [|w rest] eqn:E.
    { destruct l1; discriminate. }
    destruct (l1 ++ [x]) as [|w' rest'] eqn:E'.
    { destruct l1; discriminate. }
    change (String.concat Html.newline (z :: w :: rest))
      with (z ++ Html.newline ++ String.concat Html.newline (w :: rest))%string.
    change (String.concat Html.newline (z :: w' :: rest'))
      with (z ++ Html.newline ++ String.concat Html.newline (w' :: rest'))%string.
    rewrite IH, !string_app_assoc. reflexivity.
Qed.

(** ** get_time_string *)

Lemma months_index_inside (m : Z) :
  (-11 <= m <= 12)%Z ->
  py_index Html.months (m - 1)
  = Ok (nth (Z.to_nat ((m - 1) mod 12)) Html.months "").
Proof.
  intros Hm.
  assert (Hcases : (m = -11 \/ m = -10 \/ m = -9 \/ m = -8 \/ m = -7 \/
                    m = -6 \/ m = -5 \/ m = -4 \/ m = -3 \/ m = -2 \/
                    m = -1 \/ m = 0 \/ m = 1 \/ m = 2 \/ m = 3 \/ m = 4 \/
                    m = 5 \/ m = 6 \/ m = 7 \/ m = 8 \/ m = 9 \/ m = 10 \/
                    m = 11 \/ m = 12)%Z) by lia.
  repeat (destruct Hcases as [->|Hcases]; [reflexivity|]).
  subst m. reflexivity.
Qed.

Lemma months_index_outside (m : Z) :
  (m < -11 \/ 12 < m)%Z -> py_index Html.months (m - 1) = Raise IndexError.
Proof.
  intros Hm. unfold py_index.
  change (Z.of_nat (List.length Html.months)) with 12%Z.
  destruct (Z.ltb_spec (m - 1) 0).
  - destruct (Z.leb_spec 0 (m - 1 + 12)); [|reflexivity].
    destruct (Z.ltb_spec (m - 1 + 12) 12); [lia | reflexivity].
  - destruct (Z.leb_spec 0 (m - 1)); [|reflexivity].
    destruct (Z.ltb_spec (m - 1) 12); [lia | reflexivity].
Qed.

(** X16: for a record whose time is not the unknown time and whose month
    and hour fields [int] accepts, the month naming a month and the hour
    [h] lying in [0 .. 23], [get_time_string] in twelve-hour mode shows an
    hour between 1 and 12 that differs from [h] by a multiple of 12,
    followed by the minutes and by AM exactly when [h] is below 12. *)
Theorem twelve_hour_clock `{Html.Builtins} `{Html.StringProcessing}
    (d : Html.Dvk) (m h : Z) (month : string) :
  Html.get_time d <> "0000/00/00|00:00" ->
  Html.int (Html.slice (Html.get_time d) 5 7) = Some m ->
  py_index Html.months (m - 1) = Ok month ->
  Html.int (Html.slice (Html.get_time d) 11 13) = Some h ->
  (0 <= h <= 23)%Z ->
  exists h12,
    (1 <= h12 <= 12)%Z /\ ((h12 - h) mod 12 = 0)%Z /\
    Html.get_time_string (Some d) true
    = Html.Return
        ("Posted <b>" ++ Html.slice (Html.get_time d) 8 10 ++ " " ++ month
           ++ " " ++ Html.slice (Html.get_time d) 0 4 ++ " - "
           ++ (Html.pad_num (Html.str_of_int h12) 2
                 ++ (":" ++ Html.slice (Html.get_time d) 14 16)
                 ++ (if (h <? 12)%Z then " AM" else " PM"))
           ++ "</b>")%string.
Proof.
  intros Hknown Hm Hmonth Hh Hrange.
  unfold Html.get_time_string.
  destruct (String.eqb_spec (Html.get_time d) "0000/00/00|00:00");
    [contradiction|].
  cbv zeta. rewrite Hm, Hmonth, Hh.
  destruct (Z.ltb_spec h 12) as [Hlt|Hge].
  - destruct (Z.eqb_spec h 0) as [->|Hnz].
    + exists 12%Z. split; [lia|]. split; reflexivity.
    + exists h. split; [lia|]. split; [|reflexivity].
      now rewrite Z.sub_diag.
  - destruct (Z.eqb_spec h 12) as [->|Hne]; cbn [negb].
    + exists 12%Z. split; [lia|]. split; reflexivity.
    + exists (h - 12)%Z. split; [lia|]. split; [|reflexivity].
      replace (h - 12 - h)%Z with (-1 * 12)%Z by lia.
      apply Z.mod_mul. lia.
Qed.

(** X17: the month field indexes the list of month names as Python indexes
    a list.  When [int] reads it as a number from -11 to 12 the name shown
    is the one at position [(m - 1) mod 12], so that month 00 is shown as
    Dec; when it reads a number outside that range [get_time_string] raises
    [IndexError]; when [int] rejects it, [ValueError]. *)
Theorem month_lookup_wraps `{Html.Builtins} `{Html.StringProcessing}
    (d : Html.Dvk) (twelve_hour : bool) :
  Html.get_time d <> "0000/00/00|00:00" ->
  (Html.int (Html.slice (Html.get_time d) 5 7) = None ->
   Html.get_time_string (Some d) twelve_hour = Html.Throw Html.ValueError) /\
  (forall m,
     Html.int (Html.slice (Html.get_time d) 5 7) = Some m ->
     (m < -11 \/ 12 < m)%Z ->
     Html.get_time_string (Some d) twelve_hour = Html.Throw Html.IndexError) /\
  (forall m h,
     Html.int (Html.slice (Html.get_time d) 5 7) = Some m ->
     (-11 <= m <= 12)%Z ->
     Html.int (Html.slice (Html.get_time d) 11 13) = Some h ->
     exists clock,
       Html.get_time_string (Some d) twelve_hour
       = Html.Return
           ("Posted <b>" ++ Html.slice (Html.get_time d) 8 10 ++ " "
              ++ nth (Z.to_nat ((m - 1) mod 12)) Html.months ""
              ++ " " ++ Html.slice (Html.get_time d) 0 4 ++ " - "
              ++ clock ++ "</b>")%string).
Proof.
  intros Hknown. unfold Html.get_time_string.
  destruct (String.eqb_spec (Html.get_time d) "0000/00/00|00:00");
    [contradiction|].
  cbv zeta. split; [|split].
  - intros ->. reflexivity.
  - intros m Hm Hout. rewrite Hm, (months_index_outside m Hout). reflexivity.
  - intros m h Hm Hin Hh. rewrite Hm, (months_index_inside m Hin), Hh.
    destruct twelve_hour; [destruct (h <? 12)%Z|]; eexists; reflexivity.
Qed.

(** ** get_dvk_html *)

Lemma prefix_app (p s : string) : String.prefix p (p ++ s)%string = true.
Proof.
  induction p as [|a p IH]; simpl.
  - now destruct s.
  - destruct (ascii_dec a a); [exact IH | contradiction].
Qed.

Section Page.
Context `{BI : Html.Builtins} `{HP : Html.HtmlProcessing}
        `{SP : Html.StringProcessing} `{PL : Html.PageLists}.

Lemma header_without_artists (d : Html.Dvk) :
  Html.get_artists d = [] -> Html.get_dvk_header_html (Some d) = Html.Return "".
Proof.
  intros Ha. unfold Html.get_dvk_header_html. rewrite Ha.
  now destruct (Html.get_title d).
Qed.

Lemma header_with_artists (d : Html.Dvk) (title : string) :
  Html.get_title d = Some title -> Html.get_artists d <> [] ->
  match Html.get_time_string (Some d) true with
  | Html.Throw e => Html.get_dvk_header_html (Some d) = Html.Throw e
  | Html.Return _ => exists hd, Html.get_dvk_header_html (Some d) = Html.Return hd
  end.
Proof.
  intros Ht Ha. unfold Html.get_dvk_header_html. rewrite Ht.
  destruct (Html.get_artists d) as [|a l]; [contradiction|]. cbn [List.length Nat.eqb].
  destruct (Html.get_time_string (Some d) true); [eexists|]; reflexivity.
Qed.

Lemma info_follows_header (dvk : option Html.Dvk) :
  match Html.get_dvk_header_html dvk with
  | Html.Throw e => Html.get_dvk_info_html dvk = Html.Throw e
  | Html.Return _ => exists info, Html.get_dvk_info_html dvk = Html.Return info
  end.
Proof.
  unfold Html.get_dvk_info_html.
  destruct (Html.get_dvk_header_html dvk) as [hd|e]; [|reflexivity].
  destruct (String.eqb hd ""); [eexists; reflexivity|].
  destruct dvk; eexists; reflexivity.
Qed.

Lemma page_follows_info (d : Html.Dvk) (title : string) :
  Html.get_title d = Some title ->
  match Html.get_dvk_info_html (Some d) with
  | Html.Throw e => Html.get_dvk_html (Some d) = Html.Throw e
  | Html.Return _ =>
      exists rest,
        Html.get_dvk_html (Some d)
        = Html.Return (("<!DOCTYPE html>" ++ Html.newline) ++ rest)%string
  end.
Proof.
  intros Ht. unfold Html.get_dvk_html. rewrite Ht.
  destruct (Html.get_dvk_info_html (Some d)) as [info|e]; [|reflexivity].
  cbv zeta. eexists. rewrite string_app_assoc. reflexivity.
Qed.

(** X18: [get_dvk_html] returns the empty string when there is no record
    or the record has no title.  For a titled record it returns a page that
    begins with the doctype line, also when the record has no artists; the
    one way it fails is [get_time_string] raising on a titled record with
    artists, and then it raises the same exception. *)
Theorem page_empty_or_doctype (dvk : option Html.Dvk) :
  (dvk = None \/ (exists d, dvk = Some d /\ Html.get_title d = None) ->
   Html.get_dvk_html dvk = Html.Return "") /\
  (forall d title,
     dvk = Some d -> Html.get_title d = Some title ->
     (forall e,
        Html.get_dvk_html dvk = Html.Throw e <->
        Html.get_artists d <> [] /\
        Html.get_time_string dvk true = Html.Throw e) /\
     (forall html,
        Html.get_dvk_html dvk = Html.Return html ->
        String.prefix ("<!DOCTYPE html>" ++ Html.newline) html = true)).
Proof.
  split.
  - intros [->|[d [-> Ht]]]; [reflexivity|].
    unfold Html.get_dvk_html. now rewrite Ht.
  - intros d title -> Ht.
    pose proof (page_follows_info d title Ht) as Hpage.
    pose proof (info_follows_header (Some d)) as Hinfo.
    destruct (list_eq_dec String.string_dec (Html.get_artists d) [])
      as [Ha|Ha].
    + rewrite (header_without_artists d Ha) in Hinfo.
      destruct Hinfo as [info Hinfo]. rewrite Hinfo in Hpage.
      destruct Hpage as [rest Hpage]. rewrite Hpage. split.
      * intros e. split; [discriminate | intros [Hne _]; contradiction].
      * intros html [= <-]. apply prefix_app.
    + pose proof (header_with_artists d title Ht Ha) as Hhead.
      destruct (Html.get_time_string (Some d) true) as [t|e0].
      * destruct Hhead as [hd Hhead]. rewrite Hhead in Hinfo.
        destruct Hinfo as [info Hinfo]. rewrite Hinfo in Hpage.
        destruct Hpage as [rest Hpage]. rewrite Hpage. split.
        -- intros e. split; [discriminate | intros [_ Hthrow]; discriminate].
        -- intros html [= <-]. apply prefix_app.
      * rewrite Hhead in Hinfo. rewrite Hinfo in Hpage. rewrite Hpage. split.
        -- intros e. split.
           ++ intros [= ->]. split; [exact Ha | reflexivity].
           ++ intros [_ [= ->]]. reflexivity.
        -- intros html Hret. discriminate.
Qed.
End Page.

(* ===================================================================== *)
(** * Part V: the further properties at work *)
(* ===================================================================== *)

Section MoreFixture.
Local Existing Instance Model.string_compare.
Local Existing Instance Model.list_processing.
Local Existing Instance Model.dvk_files.
Local Existing Instance Model.file_system.

Lemma loaded_reachable : reachable Model.loaded.
Proof. unfold Model.loaded. apply reach_load, reach_init. Qed.

Lemma loaded_size : 0 < get_size Model.loaded.
Proof. vm_compute. lia. Qed.

Lemma sorted_index_is_direct_witness :
  reachable (sort_dvks Model.loaded (Some "r") false) /\
  get_dvk_sorted (sort_dvks Model.loaded (Some "r") false) 1
  = get_dvk_direct (sort_dvks Model.loaded (Some "r") false) 1.
Proof.
  assert (Hr : reachable (sort_dvks Model.loaded (Some "r") false))
    by apply reach_sort, loaded_reachable.
  split; [exact Hr|].
  exact (sorted_index_is_direct _ 1 Hr).
Defined.

Lemma comparators_total_preorder_witness :
  consistent compare_strings /\ consistent compare_alphanum /\
  consistent (on_records (select_comparator "r" true)) /\
  select_comparator "r" true (Some Model.zed) (Some Model.zed) = 0%Z.
Proof.
  split; [exact lexical_compare_consistent|].
  split; [exact natural_compare_consistent|].
  destruct (@comparators_total_preorder Model.string_compare
              Model.list_processing "r" true lexical_compare_consistent
              natural_compare_consistent) as [Hc [Hrefl _]].
  split; [exact Hc | apply Hrefl].
Defined.





Lemma alpha_sort_ascending_witness :
  let l := dvks (sort_dvks Model.loaded (Some "a") false) in
  consistent compare_strings /\ consistent compare_alphanum /\
  "a" <> "t" /\ "a" <> "r" /\ "a" <> "v" /\
  0 < get_size Model.loaded /\ 1 < 2 /\ 2 < List.length l /\
  (false = false \/
   compare_artists (nth 1 l Dvk_new) (nth 2 l Dvk_new) = 0%Z) /\
  (by_title (nth 1 l Dvk_new) (nth 2 l Dvk_new) <= 0)%Z.
Proof.
  intros l.
  assert (Ht : "a" <> "t") by discriminate.
  assert (Hr : "a" <> "r") by discriminate.
  assert (Hv : "a" <> "v") by discriminate.
  assert (H12 : 1 < 2) by lia.
  assert (Hlen : 2 < List.length l) by (vm_compute; lia).
  assert (Hg : false = false \/
               compare_artists (nth 1 l Dvk_new) (nth 2 l Dvk_new) = 0%Z)
    by (left; reflexivity).
  split; [exact lexical_compare_consistent|].
  split; [exact natural_compare_consistent|].
  split; [exact Ht|]. split; [exact Hr|]. split; [exact Hv|].
  split; [exact loaded_size|]. split; [exact H12|]. split; [exact Hlen|].
  split; [exact Hg|].
  exact (proj1 (@alpha_sort_ascending Model.string_compare
                  Model.list_processing Model.loaded "a" false Dvk_new 1 2
                  lexical_compare_consistent natural_compare_consistent
                  Ht Hr Hv loaded_size H12 Hlen Hg)).
Defined.

End MoreFixture.

Section FinderFixture.
Local Existing Instance Model.string_compare.
Local Existing Instance Model.list_processing.
Local Existing Instance Model.dvk_files.
Local Existing Instance Model.file_system.

Lemma loaded_titles_distinct (x y : Dvk) :
  In x (dvks Model.loaded) -> In y (dvks Model.loaded) ->
  on_records (select_comparator "a" false) x y = 0%Z -> x = y.
Proof.
  change (dvks Model.loaded)
    with [Model.dvk1; Model.dvk4; Model.dvk2; Model.dvk3].
  intros Hx Hy.
  destruct Hx as [<-|[<-|[<-|[<-|[]]]]];
    destruct Hy as [<-|[<-|[<-|[<-|[]]]]];
    vm_compute; intros E; try reflexivity; discriminate E.
Qed.

Lemma sort_forgets_order_witness :
  consistent compare_strings /\ consistent compare_alphanum /\
  0 < get_size Model.loaded /\
  0 < get_size (sort_dvks Model.loaded (Some "t") false) /\
  Permutation (dvks Model.loaded)
              (dvks (sort_dvks Model.loaded (Some "t") false)) /\
  dvks (sort_dvks Model.loaded (Some "a") false)
  = dvks (sort_dvks (sort_dvks Model.loaded (Some "t") false) (Some "a") false).
Proof.
  assert (Hs' : 0 < get_size (sort_dvks Model.loaded (Some "t") false))
    by (vm_compute; lia).
  assert (Hp : Permutation (dvks Model.loaded)
                 (dvks (sort_dvks Model.loaded (Some "t") false)))
    by (symmetry; apply sort_dvks_perm).
  split; [exact lexical_compare_consistent|].
  split; [exact natural_compare_consistent|].
  split; [exact loaded_size|]. split; [exact Hs'|]. split; [exact Hp|].
  exact (sort_forgets_order Model.loaded
           (sort_dvks Model.loaded (Some "t") false) "a" false
           lexical_compare_consistent natural_compare_consistent
           loaded_size Hs' Hp loaded_titles_distinct).
Defined.

Lemma fixture_walks (strs : list (option string)) (p : Path) :
  (forall s, In (Some s) strs -> s = "" \/ s = "finding") ->
  walked_from strs p ->
  p = "/finding" \/ p = "/finding/sub" \/ p = "/finding/sub2".
Proof.
  intros Hroots [s [Hs [Hne Hw]]].
  destruct (Hroots s Hs) as [->| ->]; [contradiction|].
  vm_compute in Hw. intuition.
Qed.

Lemma get_directories_roots_as_set_witness :
  removes_duplicates clean_list /\
  (forall s, s <> "" ->
     In (Some s) [Some "finding"; None]
     <-> In (Some s) [Some ""; Some "finding"; Some "finding"]) /\
  (forall p q, walked_from [Some "finding"; None] p ->
               walked_from [Some "finding"; None] q ->
               parts p = parts q -> p = q) /\
  get_directories (Some [Some "finding"; None])
  = get_directories (Some [Some ""; Some "finding"; Some "finding"]).
Proof.
  assert (Hroots : forall s, s <> "" ->
             In (Some s) [Some "finding"; None]
             <-> In (Some s) [Some ""; Some "finding"; Some "finding"]).
  { intros s Hne. simpl. split.
    - intros [E|[E|[]]]; [auto | discriminate].
    - intros [E|[E|[E|[]]]]; auto. injection E as <-. contradiction. }
  assert (Hspell : forall p q, walked_from [Some "finding"; None] p ->
                               walked_from [Some "finding"; None] q ->
                               parts p = parts q -> p = q).
  { assert (Hr : forall s, In (Some s) [Some "finding"; None] ->
                           s = "" \/ s = "finding").
    { intros s [E|[E|[]]]; [injection E as <-; now right | discriminate]. }
    intros p q Hp Hq.
    destruct (fixture_walks _ p Hr Hp) as [->|[->| ->]];
      destruct (fixture_walks _ q Hr Hq) as [->|[->| ->]];
      vm_compute; intros E; try reflexivity; discriminate E. }
  split; [exact dedup_removes_duplicates|].
  split; [exact Hroots|]. split; [exact Hspell|].
  exact (@get_directories_roots_as_set Model.file_system Model.list_processing
           [Some "finding"; None] [Some ""; Some "finding"; Some "finding"]
           dedup_removes_duplicates Hroots Hspell).
Defined.

Lemma same_ids_report_shape_witness :
  handler_given None (Some Model.caller) Model.one_store Model.loaded /\
  index_inv Model.loaded /\
  exists found st',
    same_ids None (Some Model.caller) Model.one_store = Ok (found, st') /\
    List.length found <> 1.
Proof.
  split; [exact caller_holds_loaded|]. split; [exact loaded_index_inv|].
  destruct (same_ids_report_shape None (Some Model.caller) Model.one_store
              Model.loaded caller_holds_loaded loaded_index_inv)
    as [st' [Hrun [Hlen _]]].
  eexists. exists st'. split; [exact Hrun | exact Hlen].
Defined.

Lemma same_ids_twice_witness :
  consistent compare_strings /\ consistent compare_alphanum /\
  Model.one_store !! Model.caller = Some Model.loaded /\
  index_inv Model.loaded /\
  exists found st',
    same_ids None (Some Model.caller) Model.one_store = Ok (found, st') /\
    same_ids (Some [Some "elsewhere"]) (Some Model.caller) st'
    = Ok (found, st').
Proof.
  split; [exact lexical_compare_consistent|].
  split; [exact natural_compare_consistent|].
  split; [exact caller_holds_loaded|]. split; [exact loaded_index_inv|].
  exact (@same_ids_twice Model.string_compare Model.file_system
           Model.list_processing Model.dvk_files
           None (Some [Some "elsewhere"]) Model.caller Model.one_store
           Model.loaded lexical_compare_consistent natural_compare_consistent
           caller_holds_loaded loaded_index_inv).
Defined.

Lemma same_ids_without_handler_witness :
  Model.one_store !! Model.caller = Some Model.loaded /\
  get_directories None = [] /\
  exists found st',
    same_ids None None Model.one_store = Ok (found, st') /\
    st' !! Model.caller = Some Model.loaded /\ found = [].
Proof.
  split; [exact caller_holds_loaded|]. split; [reflexivity|].
  destruct (same_ids_without_handler None Model.one_store)
    as [found [st' [Hrun [_ [_ [Hframe Hempty]]]]]].
  exists found. exists st'. split; [exact Hrun|].
  split; [apply Hframe, caller_holds_loaded | apply Hempty; reflexivity].
Defined.

End FinderFixture.

Section PageFixture.
Local Existing Instance PageSample.builtins.
Local Existing Instance PageSample.html_processing.
Local Existing Instance PageSample.string_processing.
Local Existing Instance PageSample.page_lists.

Lemma twelve_hour_clock_witness :
  Html.get_time PageSample.july <> "0000/00/00|00:00" /\
  Html.int (Html.slice (Html.get_time PageSample.july) 5 7) = Some 7%Z /\
  py_index Html.months (7 - 1) = Ok "Jul" /\
  Html.int (Html.slice (Html.get_time PageSample.july) 11 13) = Some 15%Z /\
  (0 <= 15 <= 23)%Z /\
  exists h12,
    (1 <= h12 <= 12)%Z /\ ((h12 - 15) mod 12 = 0)%Z /\
    Html.get_time_string (Some PageSample.july) true
    = Html.Return
        ("Posted <b>05 Jul 2020 - "
           ++ (Html.pad_num (Html.str_of_int h12) 2 ++ ":30 PM")
           ++ "</b>")%string.
Proof.
  assert (Hk : Html.get_time PageSample.july <> "0000/00/00|00:00")
    by discriminate.
  assert (Hm : Html.int (Html.slice (Html.get_time PageSample.july) 5 7)
               = Some 7%Z) by reflexivity.
  assert (Hn : py_index Html.months (7 - 1) = Ok "Jul") by reflexivity.
  assert (Hh : Html.int (Html.slice (Html.get_time PageSample.july) 11 13)
               = Some 15%Z) by reflexivity.
  assert (Hr : (0 <= 15 <= 23)%Z) by lia.
  split; [exact Hk|]. split; [exact Hm|]. split; [exact Hn|].
  split; [exact Hh|]. split; [exact Hr|].
  destruct (@twelve_hour_clock PageSample.builtins PageSample.string_processing
              PageSample.july 7 15 "Jul" Hk Hm Hn Hh Hr)
    as [h12 [Hb [Hmod Hrun]]].
  exists h12. split; [exact Hb|]. split; [exact Hmod|]. exact Hrun.
Defined.

Lemma month_lookup_wraps_witness :
  Html.get_time PageSample.month_zero <> "0000/00/00|00:00" /\
  Html.get_time PageSample.month_thirteen <> "0000/00/00|00:00" /\
  (exists clock,
     Html.get_time_string (Some PageSample.month_zero) false
     = Html.Return ("Posted <b>05 Dec 2020 - " ++ clock ++ "</b>")%string) /\
  Html.get_time_string (Some PageSample.month_thirteen) false
  = Html.Throw Html.IndexError.
Proof.
  assert (Hz : Html.get_time PageSample.month_zero <> "0000/00/00|00:00")
    by discriminate.
  assert (Ht : Html.get_time PageSample.month_thirteen <> "0000/00/00|00:00")
    by discriminate.
  split; [exact Hz|]. split; [exact Ht|]. split.
  - destruct (@month_lookup_wraps PageSample.builtins
                PageSample.string_processing PageSample.month_zero false Hz)
      as [_ [_ Hin]].
    destruct (Hin 0%Z 15%Z eq_refl ltac:(lia) eq_refl) as [clock Hrun].
    exists clock. exact Hrun.
  - destruct (@month_lookup_wraps PageSample.builtins
                PageSample.string_processing PageSample.month_thirteen false Ht)
      as [_ [Hout _]].
    apply (Hout 13%Z eq_refl). right. lia.
Defined.

Lemma page_empty_or_doctype_witness :
  (Some PageSample.untitled = None \/
   exists d, Some PageSample.untitled = Some d /\ Html.get_title d = None) /\
  Html.get_dvk_html (Some PageSample.untitled) = Html.Return "" /\
  Html.get_title PageSample.july = Some "Title" /\
  forall html,
    Html.get_dvk_html (Some PageSample.july) = Html.Return html ->
    String.prefix ("<!DOCTYPE html>" ++ Html.newline) html = true.
Proof.
  assert (Hu : Some PageSample.untitled = None \/
               exists d, Some PageSample.untitled = Some d /\
                         Html.get_title d = None).
  { right. exists PageSample.untitled. split; reflexivity. }
  split; [exact Hu|]. split.
  - exact (proj1 (@page_empty_or_doctype PageSample.builtins
                    PageSample.html_processing PageSample.string_processing
                    PageSample.page_lists (Some PageSample.untitled)) Hu).
  - split; [reflexivity|].
    exact (proj2 (proj2 (@page_empty_or_doctype PageSample.builtins
                           PageSample.html_processing
                           PageSample.string_processing PageSample.page_lists
                           (Some PageSample.july))
                    PageSample.july "Title" eq_refl eq_refl)).
Defined.
End PageFixture.

(* ===================================================================== *)
(** * Part VI: the report in terms of the loaded records *)
(* ===================================================================== *)

Lemma sorted_view_perm `{DvkFiles} (h : DvkHandler) :
  index_inv h -> Permutation (sorted_view h) (dvks h).
Proof.
  intros [_ Hperm]. unfold sorted_view.
  rewrite (Permutation_map (fun j => nth j (dvks h) Dvk_new) Hperm).
  rewrite (map_nth_seq (fun d : Dvk => d) (dvks h) Dvk_new), map_id.
  reflexivity.
Qed.

Lemma file_at `{DvkFiles} (records : list Dvk) (n : nat) :
  nth n (map get_file records) (get_file Dvk_new)
  = get_file (nth n records Dvk_new).
Proof. apply (map_nth get_file). Qed.

Lemma id_at `{DvkFiles} (records : list Dvk) (n : nat) :
  n < List.length records ->
  nth n (map get_id records) "" = get_id (nth n records Dvk_new).
Proof.
  intros Hn. rewrite (nth_indep _ "" (get_id Dvk_new)).
  - apply (map_nth get_id).
  - now rewrite length_map.
Qed.

(** X19: when the loaded records have pairwise different files, the report
    of [same_ids] lists, each once, exactly the files of the records whose
    id is also the id of a record with another file, whatever the order the
    records were loaded or sorted in. *)
Theorem same_ids_reports_colliding_records `{StringCompare} `{FileSystem}
    `{ListProcessing} `{DvkFiles}
    (dirs : option (list (option string))) (hopt : option loc) (st : store)
    (h : DvkHandler) :
  handler_given dirs hopt st h -> index_inv h ->
  NoDup (map get_file (dvks h)) ->
  exists found st',
    same_ids dirs hopt st = Ok (found, st') /\
    NoDup found /\
    forall p,
      In p found <->
      exists d d', In d (dvks h) /\ In d' (dvks h) /\
                   get_file d = p /\ get_file d' <> p /\
                   get_id d' = get_id d.
Proof.
  intros Hg Hinv Hfiles.
  destruct (same_ids_run_any dirs hopt st h Hg Hinv) as [st' Hrun].
  set (records := sorted_view (sort_dvks h (Some "a") true)) in *.
  set (ids := map get_id records) in *.
  assert (Hperm : Permutation records (dvks h)).
  { unfold records. rewrite sorted_view_perm by now apply index_inv_sort.
    apply sort_dvks_perm. }
  assert (Hnd : NoDup (map get_file records)).
  { apply (Permutation_NoDup (l := map get_file (dvks h))); [|exact Hfiles].
    symmetry. now apply Permutation_map. }
  assert (Hlen : List.length ids = List.length records)
    by (unfold ids; apply length_map).
  assert (Hinj : forall a b, a < List.length records ->
                   b < List.length records ->
                   get_file (nth a records Dvk_new)
                   = get_file (nth b records Dvk_new) -> a = b).
  { intros a b Ha Hb E.
    apply (proj1 (NoDup_nth _ (get_file Dvk_new)) Hnd);
      rewrite ?length_map, ?file_at; auto. }
  exists (paths_at records (cluster_order ids)). exists st'.
  split; [exact Hrun|]. split.
  - apply paths_at_NoDup; [apply cluster_order_NoDup | | exact Hnd].
    intros p Hp. apply cluster_order_bound in Hp. lia.
  - intros p. unfold paths_at. rewrite in_map_iff. split.
    + intros [pos [Hfile Hpos]].
      apply cluster_order_in in Hpos as [Hb [q [Hq [Hne Heq]]]].
      rewrite Hlen in Hb, Hq.
      unfold ids in Heq. rewrite !id_at in Heq by assumption.
      exists (nth pos records Dvk_new). exists (nth q records Dvk_new).
      split; [apply (Permutation_in _ Hperm), nth_In, Hb|].
      split; [apply (Permutation_in _ Hperm), nth_In, Hq|].
      split; [exact Hfile|]. split; [|exact Heq].
      rewrite <- Hfile. intros E. apply Hne. now apply Hinj.
    + intros [d [d' [Hd [Hd' [Hfile [Hother Hid]]]]]].
      apply (Permutation_in _ (Permutation_sym Hperm)) in Hd, Hd'.
      destruct (In_nth _ _ Dvk_new Hd) as [pos [Hb Hpos]].
      destruct (In_nth _ _ Dvk_new Hd') as [q [Hq Hqd]].
      exists pos. split; [now rewrite Hpos|].
      apply cluster_order_in. split; [lia|].
      exists q. split; [lia|]. split.
      * intros ->. rewrite Hqd in Hpos. subst d'. contradiction.
      * unfold ids. rewrite !id_at by assumption. now rewrite Hpos, Hqd.
Qed.

Section ReportFixture.
Local Existing Instance Model.string_compare.
Local Existing Instance Model.list_processing.
Local Existing Instance Model.dvk_files.
Local Existing Instance Model.file_system.

Lemma same_ids_reports_colliding_records_witness :
  handler_given None (Some Model.caller) Model.one_store Model.loaded /\
  index_inv Model.loaded /\
  NoDup (map get_file (dvks Model.loaded)) /\
  exists found st',
    same_ids None (Some Model.caller) Model.one_store = Ok (found, st') /\
    In "/finding/sub/dvk3.dvk" found.
Proof.
  assert (Hfiles : NoDup (map get_file (dvks Model.loaded))).
  { change (map get_file (dvks Model.loaded))
      with ["/finding/dvk1.dvk"; "/finding/dvk4.dvk";
            "/finding/sub/dvk2.dvk"; "/finding/sub/dvk3.dvk"].
    repeat constructor; simpl; intuition discriminate. }
  split; [exact caller_holds_loaded|]. split; [exact loaded_index_inv|].
  split; [exact Hfiles|].
  destruct (same_ids_reports_colliding_records None (Some Model.caller)
              Model.one_store Model.loaded caller_holds_loaded
              loaded_index_inv Hfiles)
    as [found [st' [Hrun [_ Hin]]]].
  exists found. exists st'. split; [exact Hrun|].
  apply Hin. exists Model.dvk3. exists Model.dvk1.
  change (dvks Model.loaded)
    with [Model.dvk1; Model.dvk4; Model.dvk2; Model.dvk3].
  split; [simpl; tauto|]. split; [simpl; tauto|].
  split; [reflexivity|]. split; [discriminate | reflexivity].
Defined.
End ReportFixture.
